(** * Event alarm evaluator (aodh/evaluator/event.py)

    A shallow embedding of the event-driven alarm evaluator and the
    properties its specification states about it.

    Conventions of the embedding.

    - Raw events arrive from the wire as JSON-like Python values; they are
      values of [pyval] and nothing is assumed about their shape: every
      attribute access, subscript and iteration the source performs on them
      is modelled with the Python exception it raises on a value of the
      wrong kind.
    - Alarms are model objects handed out by the storage layer; they are
      records, with the fields the evaluator reads.  A rule is the pair of
      its ['event_type'] pattern and its ['query'], a list of conditions
      with keys ['field'], ['op'] (optional) and ['value'].
    - Methods of [EventAlarmEvaluator] run in a state-and-exception monad
      over the evaluator object ([self]): its configuration, its
      [caches] dictionary, the outside world behind the collaborators
      (storage, notifier, clock) and the sequence of effects performed so
      far (collaborator calls, writes to cached alarms, log records).
      A state change made before an exception is raised persists, as in
      Python.
    - Python dictionaries are association lists in insertion order with
      unique keys.
    - An alarm object is shared by the mapping a lookup returns and the
      cache entry the mapping belongs to.  The evaluator visits each alarm
      of a mapping once and reads its attributes before it writes to it,
      so the mapping is iterated as it was returned and the write goes to
      the cache entry. *)

From Stdlib Require Import ZArith List String Ascii Bool Lia.
Import ListNotations.

Local Open Scope string_scope.
Local Open Scope Z_scope.

Set Warnings "-register-all".

(** ** Python values *)

(** A float is kept as the exact value it denotes: [FFin m e] is
    [m * 2^e].  The evaluator never does arithmetic on floats, it only
    compares them, and comparison is exact on this representation. *)
Inductive pyfloat :=
| FNan
| FInf (negative : bool)
| FFin (m e : Z).

(** [PTime t]: a naive UTC [datetime], as microseconds since the epoch
    (the result of [timeutils.normalize_time]). *)
Inductive pyval :=
| PNone
| PBool (b : bool)
| PInt (z : Z)
| PFloat (f : pyfloat)
| PStr (s : string)
| PTime (t : Z)
| PList (l : list pyval)
| PDict (d : list (string * pyval)).

(** Built-in exceptions a library call or an operation on a value raises;
    [OtherException] stands for any further subclass of [Exception] (a
    storage driver's or a notifier's own errors), by name. *)
Inductive pyexc :=
| KeyError
| TypeError
| ValueError
| IndexError
| AttributeError
| OverflowError
| OtherException (name : string).

(** [class InvalidEvent(Exception)] is the one exception class the module
    defines; everything else that can be raised is a [pyexc]. *)
Inductive exn :=
| InvalidEvent
| Raised (e : pyexc).

(** ** Dictionaries *)

Section Dict.
Context {K V : Type} (eqb : K -> K -> bool).

Definition dict := list (K * V).

(** [d.get(k)] *)
Fixpoint dict_get (d : dict) (k : K) : option V :=
  match d with
  | [] => None
  | (k', v) :: d' => if eqb k' k then Some v else dict_get d' k
  end.

(** [k in d] *)
Definition dict_mem (d : dict) (k : K) : bool :=
  match dict_get d k with Some _ => true | None => false end.

(** [d[k] = v]: an existing key keeps its position. *)
Fixpoint dict_set (d : dict) (k : K) (v : V) : dict :=
  match d with
  | [] => [(k, v)]
  | (k', v') :: d' =>
      if eqb k' k then (k', v) :: d' else (k', v') :: dict_set d' k v
  end.

(** [del d[k]] *)
Fixpoint dict_del (d : dict) (k : K) : dict :=
  match d with
  | [] => []
  | (k', v') :: d' => if eqb k' k then d' else (k', v') :: dict_del d' k
  end.
End Dict.

(** ** Truth value and comparison of Python values *)

Definition float_is_zero (f : pyfloat) : bool :=
  match f with FFin m _ => m =? 0 | _ => false end.

(** [bool(v)], as [not] and [if] use it. *)
Definition truthy (v : pyval) : bool :=
  match v with
  | PNone => false
  | PBool b => b
  | PInt z => negb (z =? 0)
  | PFloat f => negb (float_is_zero f)
  | PStr s => negb (s =? "")%string
  | PTime _ => true
  | PList l => match l with [] => false | _ => true end
  | PDict d => match d with [] => false | _ => true end
  end.

Definition fin_compare (m1 e1 m2 e2 : Z) : comparison :=
  let e := Z.min e1 e2 in
  (m1 * 2 ^ (e1 - e)) ?= (m2 * 2 ^ (e2 - e)).

(** [None]: unordered (a NaN is involved), every test but [!=] is false. *)
Definition float_compare (x y : pyfloat) : option comparison :=
  match x, y with
  | FNan, _ | _, FNan => None
  | FInf a, FInf b => Some (if a then (if b then Eq else Lt)
                            else (if b then Gt else Eq))
  | FInf a, FFin _ _ => Some (if a then Lt else Gt)
  | FFin _ _, FInf b => Some (if b then Gt else Lt)
  | FFin m1 e1, FFin m2 e2 => Some (fin_compare m1 e1 m2 e2)
  end.

(** [bool], [int] and [float] compare with each other by value. *)
Definition as_number (v : pyval) : option pyfloat :=
  match v with
  | PBool b => Some (FFin (if b then 1 else 0) 0)
  | PInt z => Some (FFin z 0)
  | PFloat f => Some f
  | _ => None
  end.

Definition is_Eq (c : option comparison) : bool :=
  match c with Some Eq => true | _ => false end.

(** [a == b] on built-in values; it never raises. *)
Fixpoint py_eq (a b : pyval) : bool :=
  match a, b with
  | PNone, PNone => true
  | PStr s1, PStr s2 => (s1 =? s2)%string
  | PTime t1, PTime t2 => t1 =? t2
  | PList l1, PList l2 =>
      (fix all_eq (l1 l2 : list pyval) : bool :=
         match l1, l2 with
         | [], [] => true
         | x :: l1', y :: l2' => py_eq x y && all_eq l1' l2'
         | _, _ => false
         end) l1 l2
  | PDict d1, PDict d2 =>
      Nat.eqb (List.length d1) (List.length d2) &&
      (fix sub (d : list (string * pyval)) : bool :=
         match d with
         | [] => true
         | (k, v) :: d' =>
             match dict_get String.eqb d2 k with
             | Some v' => py_eq v v' && sub d'
             | None => false
             end
         end) d1
  | _, _ =>
      match as_number a, as_number b with
      | Some x, Some y => is_Eq (float_compare x y)
      | _, _ => false
      end
  end.

(** The six entries of the [operator] module the evaluator uses. *)
Inductive comparator := op_gt | op_lt | op_ge | op_le | op_eq | op_ne.

(** Whether an ordering test holds for the outcome of a three-way
    comparison ([None]: unordered). *)
Definition ordering_holds (o : comparator) (c : option comparison) : bool :=
  match o, c with
  | op_gt, Some Gt => true
  | op_lt, Some Lt => true
  | op_ge, Some (Gt | Eq) => true
  | op_le, Some (Lt | Eq) => true
  | _, _ => false
  end.

(** [a < b], [a > b], [a <= b], [a >= b] (Python 3): numbers with numbers,
    strings with strings, datetimes with datetimes, lists with lists
    (decided at the first pair of unequal items, else by length); any other
    pairing is a [TypeError], here [None]. *)
Fixpoint py_order (o : comparator) (a b : pyval) : option bool :=
  match a, b with
  | PStr s1, PStr s2 => Some (ordering_holds o (Some (String.compare s1 s2)))
  | PTime t1, PTime t2 => Some (ordering_holds o (Some (t1 ?= t2)))
  | PList l1, PList l2 =>
      (fix first_diff (l1 l2 : list pyval) : option bool :=
         match l1, l2 with
         | [], [] => Some (ordering_holds o (Some Eq))
         | [], _ :: _ => Some (ordering_holds o (Some Lt))
         | _ :: _, [] => Some (ordering_holds o (Some Gt))
         | x :: l1', y :: l2' =>
             if py_eq x y then first_diff l1' l2' else py_order o x y
         end) l1 l2
  | _, _ =>
      match as_number a, as_number b with
      | Some x, Some y => Some (ordering_holds o (float_compare x y))
      | _, _ => None
      end
  end.

(** [op(a, b)] for [op] one of the six functions. *)
Definition apply_comparator (o : comparator) (a b : pyval) : pyexc + bool :=
  match o with
  | op_eq => inr (py_eq a b)
  | op_ne => inr (negb (py_eq a b))
  | _ => match py_order o a b with
         | Some r => inr r
         | None => inl TypeError
         end
  end.

(** [COMPARATORS]: the table from operator names to functions; [None] is a
    missing key. *)
Definition COMPARATORS (name : string) : option comparator :=
  if (name =? "gt")%string then Some op_gt
  else if (name =? "lt")%string then Some op_lt
  else if (name =? "ge")%string then Some op_ge
  else if (name =? "le")%string then Some op_le
  else if (name =? "eq")%string then Some op_eq
  else if (name =? "ne")%string then Some op_ne
  else None.

(** ** Library functions on strings *)

(** [s.split(c)]: the pieces between the occurrences of [c]; never empty. *)
Fixpoint split_on (c : ascii) (s : string) : list string :=
  match s with
  | EmptyString => [EmptyString]
  | String a s' =>
      if (a =? c)%char then EmptyString :: split_on c s'
      else match split_on c s' with
           | [] => [String a EmptyString]
           | w :: ws => String a w :: ws
           end
  end.

(** [s.split(c, 1)]: split at the first occurrence of [c] only. *)
Fixpoint split_once (c : ascii) (s : string) : list string :=
  match s with
  | EmptyString => [EmptyString]
  | String a s' =>
      if (a =? c)%char then [EmptyString; s']
      else match split_once c s' with
           | [] => [String a EmptyString]
           | w :: ws => String a w :: ws
           end
  end.

(** *** Shell-style patterns

    The pattern language of [fnmatch], read the way [fnmatch.translate]
    reads it: [*] is any run of characters, [?] one character, [[seq]]
    one character of [seq] and [[!seq]] one character not in it; a [[]
    with no closing bracket is a literal.  Inside brackets [a-z] is a
    range, and a []] right after the opening bracket (or after [!]) is a
    member.  A range whose bounds are out of order, on which the
    versions of Python differ (an error of the [re] module in some, a
    rewritten pattern in others), matches nothing here.  There is no case
    folding (POSIX). *)

Inductive class_item :=
| CChar (c : ascii)
| CRange (lo hi : ascii).

Inductive glob_token :=
| GStar
| GAny
| GClass (negated : bool) (members : list class_item)
| GChar (c : ascii).

Fixpoint class_items (body : list ascii) : list class_item :=
  match body with
  | [] => []
  | c :: rest =>
      match rest with
      | dash :: d :: rest' =>
          if (dash =? "-")%char then CRange c d :: class_items rest'
          else CChar c :: class_items rest
      | _ => CChar c :: class_items rest
      end
  end.

(** The text up to the first []], and what follows it. *)
Fixpoint find_close (l : list ascii) : option (list ascii * list ascii) :=
  match l with
  | [] => None
  | c :: l' =>
      if (c =? "]")%char then Some ([], l')
      else match find_close l' with
           | Some (body, after) => Some (c :: body, after)
           | None => None
           end
  end.

(** What follows a [[]: negation mark, members, rest of the pattern. *)
Definition parse_class (rest : list ascii)
  : option (bool * list ascii * list ascii) :=
  let (neg, r1) :=
    match rest with
    | c :: r => if (c =? "!")%char then (true, r) else (false, rest)
    | [] => (false, rest)
    end in
  let (first, r2) :=
    match r1 with
    | c :: r => if (c =? "]")%char then ([c], r) else ([], r1)
    | [] => ([], r1)
    end in
  match find_close r2 with
  | Some (body, after) => Some (neg, (first ++ body)%list, after)
  | None => None
  end.

(** One token per step, so the length of the pattern is fuel enough. *)
Fixpoint translate (fuel : nat) (pat : list ascii) : list glob_token :=
  match fuel with
  | O => []
  | S fuel' =>
      match pat with
      | [] => []
      | c :: p =>
          if (c =? "*")%char then GStar :: translate fuel' p
          else if (c =? "?")%char then GAny :: translate fuel' p
          else if (c =? "[")%char then
            match parse_class p with
            | Some (neg, body, after) =>
                GClass neg (class_items body) :: translate fuel' after
            | None => GChar c :: translate fuel' p
            end
          else GChar c :: translate fuel' p
      end
  end.

Definition in_class_item (ch : ascii) (i : class_item) : bool :=
  match i with
  | CChar c => (c =? ch)%char
  | CRange lo hi =>
      (nat_of_ascii lo <=? nat_of_ascii ch)%nat &&
      (nat_of_ascii ch <=? nat_of_ascii hi)%nat
  end.

Fixpoint glob_match (p : list glob_token) (s : list ascii) {struct p} : bool :=
  match p with
  | [] => match s with [] => true | _ => false end
  | GStar :: p' =>
      (fix from_some_suffix (s : list ascii) : bool :=
         glob_match p' s ||
         match s with [] => false | _ :: s' => from_some_suffix s' end) s
  | GAny :: p' =>
      match s with [] => false | _ :: s' => glob_match p' s' end
  | GClass neg items :: p' =>
      match s with
      | [] => false
      | ch :: s' =>
          xorb neg (existsb (in_class_item ch) items) && glob_match p' s'
      end
  | GChar c :: p' =>
      match s with
      | [] => false
      | ch :: s' => (c =? ch)%char && glob_match p' s'
      end
  end.

Definition glob (name pat : string) : bool :=
  let p := list_ascii_of_string pat in
  glob_match (translate (List.length p) p) (list_ascii_of_string name).

(** ** Operations on values of unknown shape *)

(** [v.get(k, default)]: only dictionaries have a [get]. *)
Definition py_get (v : pyval) (k : string) (default : pyval) : pyexc + pyval :=
  match v with
  | PDict d =>
      inr (match dict_get String.eqb d k with Some x => x | None => default end)
  | _ => inl AttributeError
  end.

(** [v[k]] with [k] a string. *)
Definition py_getitem (v : pyval) (k : string) : pyexc + pyval :=
  match v with
  | PDict d =>
      match dict_get String.eqb d k with
      | Some x => inr x
      | None => inl KeyError
      end
  | _ => inl TypeError
  end.

(** [v[i]] with [i] a small non-negative integer. *)
Definition py_index (v : pyval) (i : nat) : pyexc + pyval :=
  match v with
  | PList l =>
      match nth_error l i with Some x => inr x | None => inl IndexError end
  | PStr s =>
      match String.get i s with
      | Some c => inr (PStr (String c EmptyString))
      | None => inl IndexError
      end
  | PDict _ => inl KeyError
  | _ => inl TypeError
  end.

(** [for t in v]: the items [v] yields. *)
Definition py_iter (v : pyval) : pyexc + list pyval :=
  match v with
  | PList l => inr l
  | PStr s =>
      inr (map (fun c => PStr (String c EmptyString)) (list_ascii_of_string s))
  | PDict d => inr (map (fun kv => PStr (fst kv)) d)
  | _ => inl TypeError
  end.

(** Lists and dictionaries cannot be dictionary keys. *)
Definition hashable (v : pyval) : bool :=
  match v with
  | PList _ | PDict _ => false
  | _ => true
  end.

(** ** Time spans

    [datetime.timedelta(seconds=n)] for an integer [n] splits [n] into
    whole days and the seconds left over ([divmod(n, 86400)]) and raises
    [OverflowError] when the days are more than 999999999 either way. *)
Definition timedelta_ok (seconds : Z) : bool :=
  (-999999999 <=? seconds / 86400) && (seconds / 86400 <=? 999999999).

(** ** Library functions the evaluator calls

    [int], [float], [timeutils.normalize_time(timeutils.parse_isotime(_))]
    and [six.text_type], which the trait sanitizer calls, and
    [fnmatch.fnmatch(name, pat)] with [pat] a string, are library code;
    the evaluator is verified for any behaviour of them.  They raise
    exceptions of their own only, never [InvalidEvent]. *)
Class Builtins := {
  py_int : pyval -> pyexc + Z;
  py_float : pyval -> pyexc + pyfloat;
  py_isotime : pyval -> pyexc + Z;
  text_type : pyval -> string;
  fnmatch : pyval -> string -> pyexc + bool
}.

(** A library call's exception, as an exception of this module. *)
Definition lift {A : Type} (r : pyexc + A) : exn + A :=
  match r with
  | inl e => inl (Raised e)
  | inr a => inr a
  end.

Definition _sanitize_trait_value `{Builtins} (value trait_type : pyval)
  : pyexc + pyval :=
  if py_eq trait_type (PInt 2) || py_eq trait_type (PStr "integer") then
    match py_int value with inl e => inl e | inr z => inr (PInt z) end
  else if py_eq trait_type (PInt 3) || py_eq trait_type (PStr "float") then
    match py_float value with inl e => inl e | inr f => inr (PFloat f) end
  else if py_eq trait_type (PInt 4) || py_eq trait_type (PStr "datetime") then
    match py_isotime value with inl e => inl e | inr t => inr (PTime t) end
  else
    inr (PStr (text_type value)).

(** ** [class Event]: a received event with its converted values *)

Arguments dict : clear implicits.

Record Event := {
  obj : pyval;
  id : pyval;
  traits : dict pyval pyval;
  project : pyval
}.

Module Event.

Definition TRAIT_FIELD : nat := 0.
Definition TRAIT_TYPE : nat := 1.
Definition TRAIT_VALUE : nat := 2.

(** [get(k)] followed by [not]: the value counts as missing when it is
    absent or falsy. *)
Definition missing (event : pyval) (k : string) : exn + bool :=
  match py_get event k PNone with
  | inl e => inl (Raised e)
  | inr v => inr (negb (truthy v))
  end.

(** Validate the received event has the mandatory parameters.  (The
    [LOG.error] record written before each [raise] is left out.) *)
Definition _validate (event : pyval) : exn + unit :=
  if negb (truthy event) then inl InvalidEvent
  else
    match missing event "event_type" with
    | inl e => inl e
    | inr true => inl InvalidEvent
    | inr false =>
        match missing event "message_id" with
        | inl e => inl e
        | inr true => inl InvalidEvent
        | inr false => inr tt
        end
    end.

(** The body of the loop of [_parse_traits] for one item [t], on the
    traits and the project collected so far. *)
Definition parse_trait `{Builtins} (t : pyval)
    (acc : dict pyval pyval * pyval) : pyexc + (dict pyval pyval * pyval) :=
  let (traits, project) := acc in
  match py_index t TRAIT_FIELD with
  | inl e => inl e
  | inr k =>
      match py_index t TRAIT_VALUE with
      | inl e => inl e
      | inr raw =>
          match py_index t TRAIT_TYPE with
          | inl e => inl e
          | inr ty =>
              match _sanitize_trait_value raw ty with
              | inl e => inl e
              | inr v =>
                  if hashable k then
                    inr (dict_set py_eq traits k v,
                         if py_eq k (PStr "tenant_id") ||
                            py_eq k (PStr "project_id")
                         then v else project)
                  else inl TypeError
              end
          end
      end
  end.

Fixpoint parse_traits_loop `{Builtins} (ts : list pyval)
    (acc : dict pyval pyval * pyval) : pyexc + (dict pyval pyval * pyval) :=
  match ts with
  | [] => inr acc
  | t :: ts' =>
      match parse_trait t acc with
      | inl e => inl e
      | inr acc' => parse_traits_loop ts' acc'
      end
  end.

(** Returns the pair [(self.traits, self.project)]. *)
Definition _parse_traits `{Builtins} (event : pyval)
  : pyexc + (dict pyval pyval * pyval) :=
  match py_get event "traits" (PList []) with
  | inl e => inl e
  | inr tv =>
      match py_iter tv with
      | inl e => inl e
      | inr ts => parse_traits_loop ts ([], PStr "")
      end
  end.

(** [Event(event)]: either the object or the exception that leaves the
    constructor; no object exists in the second case. *)
Definition __init__ `{Builtins} (event : pyval) : exn + Event :=
  match _validate event with
  | inl e => inl e
  | inr tt =>
      match py_get event "message_id" PNone with
      | inl e => inl (Raised e)
      | inr mid =>
          match _parse_traits event with
          | inl e => inl (Raised e)
          | inr (traits, project) =>
              inr {| obj := event; id := mid;
                     traits := traits; project := project |}
          end
      end
  end.

(** Descend from [v] along the path [fs]; [None] as soon as a step lands
    on something without a [get]. *)
Fixpoint walk (v : pyval) (fs : list string) : pyval :=
  match fs with
  | [] => v
  | f :: fs' =>
      match v with
      | PDict d =>
          walk (match dict_get String.eqb d f with
                | Some x => x
                | None => PNone
                end) fs'
      | _ => PNone
      end
  end.

Definition get_value (self : Event) (field : string) : pyval :=
  if prefix "traits." field then
    let key := last (split_once "." field) EmptyString in
    match dict_get py_eq (traits self) (PStr key) with
    | Some v => v
    | None => PNone
    end
  else walk (obj self) (split_on "." field).

End Event.

(** ** Alarms *)

(** Modelled from the spec: the alarm states of the [aodh.evaluator]
    package, which is not part of the sources at hand
    ([state] is one of ok, alarm, insufficient data;
    [evaluator.ALARM] is the state ['alarm']). *)
Inductive alarm_state := OK | ALARM | UNKNOWN.

Definition alarm_state_eqb (a b : alarm_state) : bool :=
  match a, b with
  | OK, OK | ALARM, ALARM | UNKNOWN, UNKNOWN => true
  | _, _ => false
  end.

Record Condition := {
  field : string;
  op : option string;
  value : pyval
}.

Record Rule := {
  event_type : string;
  query : list Condition
}.

Record Alarm := {
  alarm_id : string;
  project_id : string;
  state : alarm_state;
  repeat_actions : bool;
  rule : Rule
}.

Definition set_state (a : Alarm) (s : alarm_state) : Alarm :=
  {| alarm_id := alarm_id a; project_id := project_id a; state := s;
     repeat_actions := repeat_actions a; rule := rule a |}.

(** One entry of [self.caches]: [{'alarms': ..., 'updated': ...}]. *)
Record cache_entry := {
  alarms : dict string Alarm;
  updated : Z
}.

(** ** Effects *)

(** The records the evaluator writes to its log. *)
Inductive log_record :=
| LogStarting (n : nat)
| LogEvaluatingEvent (e : pyval)
| LogAbortingEvent
| LogFailedAlarm (a : string) (e : pyval)
| LogFinished
| LogEvaluatingAlarm (a : string) (e : pyval)
| LogSkip (a : string)
| LogUninterested (a : string)
| LogComparing (v : pyval) (c : Condition)
| LogUnmet (c : Condition).

(** What the evaluator does to the outside, and to the alarms it caches:
    - [GetAlarms p]: a call of
      [_storage_conn.get_alarms(enabled=True, alarm_type='event', project=p)];
    - [Refresh a s r d]: a call of the base class's [_refresh(a, s, r, d)];
    - [CachedStateSet p i s]: the assignment
      [self.caches[p]['alarms'][i].state = s]. *)
Inductive effect :=
| Logged (r : log_record)
| GetAlarms (project : pyval)
| Refresh (a : Alarm) (s : alarm_state) (reason : string) (reason_data : pyval)
| CachedStateSet (project : string) (a : string) (s : alarm_state).

(** The collaborators, over a state of the outside world of their own:
    the clock ([timeutils.utcnow], in microseconds since the epoch), the
    storage connection's [get_alarms] with the evaluator's fixed filters,
    and [_refresh] of the base class [aodh.evaluator.Evaluator], which
    persists the new state and dispatches the notification.  The base
    class is not among the sources at hand; the evaluator is verified for
    any behaviour of the three on the outside world, with or without an
    exception.  The exceptions are [Exception]s. *)
Class Collaborators := {
  world : Type;
  utcnow : world -> Z * world;
  get_alarms : pyval -> world -> (pyexc + list Alarm) * world;
  super_refresh :
    Alarm -> alarm_state -> string -> pyval -> world -> (pyexc + unit) * world
}.

(** ** [class EventAlarmEvaluator] *)

(** The evaluator object: [self.conf.event_alarm_cache_ttl] (seconds),
    [self.caches], the world behind the collaborators, and the effects so
    far. *)
Record evaluator `{Collaborators} := {
  event_alarm_cache_ttl : Z;
  caches : dict pyval cache_entry;
  env : world;
  trace : list effect
}.

Definition add_trace `{Collaborators} (s : evaluator) (l : list effect)
  : evaluator :=
  {| event_alarm_cache_ttl := event_alarm_cache_ttl s;
     caches := caches s; env := env s; trace := (trace s ++ l)%list |}.

Definition with_caches `{Collaborators} (s : evaluator)
    (c : dict pyval cache_entry) : evaluator :=
  {| event_alarm_cache_ttl := event_alarm_cache_ttl s;
     caches := c; env := env s; trace := trace s |}.

Definition with_env `{Collaborators} (s : evaluator) (w : world) : evaluator :=
  {| event_alarm_cache_ttl := event_alarm_cache_ttl s;
     caches := caches s; env := w; trace := trace s |}.

(** A method: it runs on the evaluator and ends with a value or an
    exception, and with the evaluator as it left it. *)
Definition M `{Collaborators} (A : Type) : Type :=
  evaluator -> (exn + A) * evaluator.

Definition ret `{Collaborators} {A : Type} (a : A) : M A :=
  fun s => (inr a, s).

Definition raise `{Collaborators} {A : Type} (e : exn) : M A :=
  fun s => (inl e, s).

Definition bind `{Collaborators} {A B : Type} (m : M A) (k : A -> M B) : M B :=
  fun s =>
    match m s with
    | (inl e, s') => (inl e, s')
    | (inr a, s') => k a s'
    end.

(** [try: m  except Exception: handler] *)
Definition try_except `{Collaborators} {A : Type} (m : M A) (handler : M A)
  : M A :=
  fun s =>
    match m s with
    | (inl _, s') => handler s'
    | (inr a, s') => (inr a, s')
    end.

Notation "x <- m ;; k" := (bind m (fun x => k))
  (at level 61, m at next level, right associativity).
Notation "m ;;; k" := (bind m (fun _ => k))
  (at level 61, right associativity).

Module EventAlarmEvaluator.
Section Methods.
Context `{Builtins} `{Collaborators}.

(** [__init__]: a configuration, and no cache. *)
Definition __init__ (ttl : Z) (w : world) : evaluator :=
  {| event_alarm_cache_ttl := ttl; caches := []; env := w; trace := [] |}.

Definition emit (e : effect) : M unit :=
  fun s => (inr tt, add_trace s [e]).

Definition log (r : log_record) : M unit := emit (Logged r).

Definition get_caches : M (dict pyval cache_entry) :=
  fun s => (inr (caches s), s).

Definition put_caches (c : dict pyval cache_entry) : M unit :=
  fun s => (inr tt, with_caches s c).

Definition conf_event_alarm_cache_ttl : M Z :=
  fun s => (inr (event_alarm_cache_ttl s), s).

(** Run a collaborator on the world. *)
Definition call {A : Type} (f : world -> (pyexc + A) * world) : M A :=
  fun s =>
    let (r, w) := f (env s) in
    (match r with inl e => inl (Raised e) | inr a => inr a end,
     with_env s w).

Definition timeutils_utcnow : M Z :=
  call (fun w => let (t, w') := utcnow w in (inr t, w')).

(** [timeutils.is_older_than(before, seconds)] of oslo.utils:
    [utcnow() - before > datetime.timedelta(seconds=seconds)].  The clock
    is read first; the [timedelta] is built after it, and a number of
    seconds it cannot hold is an [OverflowError]. *)
Definition timeutils_is_older_than (before seconds : Z) : M bool :=
  now <- timeutils_utcnow ;;
  if timedelta_ok seconds then ret (seconds * 1000000 <? now - before)
  else raise (Raised OverflowError).

Definition storage_get_alarms (project : pyval) : M (list Alarm) :=
  emit (GetAlarms project) ;;;
  call (get_alarms project).

(** [k in self.caches]: a key that cannot be hashed is a [TypeError]. *)
Definition has_key (cs : dict pyval cache_entry) (k : pyval) : M bool :=
  if hashable k then ret (dict_mem py_eq cs k) else raise (Raised TypeError).

(** [{a.alarm_id: a for a in fetched}] *)
Definition by_alarm_id (fetched : list Alarm) : dict string Alarm :=
  fold_left (fun d a => dict_set String.eqb d (alarm_id a) a) fetched [].

(** The first statement of [_get_project_alarms]: the alarms of a cache
    entry that is not too old, when the method returns them at once;
    [None] when it goes on to the storage, a stale entry being deleted. *)
Definition cached_alarms (project : pyval)
  : M (option (dict string Alarm)) :=
  ttl <- conf_event_alarm_cache_ttl ;;
  cs <- get_caches ;;
  if negb (ttl =? 0) then
    in_caches <- has_key cs project ;;
    if in_caches then
      match dict_get py_eq cs project with
      | Some entry =>
          older <- timeutils_is_older_than (updated entry) ttl ;;
          if older then
            put_caches (dict_del py_eq cs project) ;;;
            ret None
          else ret (Some (alarms entry))
      | None => raise (Raised KeyError)
      end
    else ret None
  else ret None.

Definition _get_project_alarms (project : pyval) : M (dict string Alarm) :=
  cached <- cached_alarms project ;;
  match cached with
  | Some found => ret found
  | None =>
      ttl <- conf_event_alarm_cache_ttl ;;
      fetched <- storage_get_alarms project ;;
      let alarms := by_alarm_id fetched in
      (if negb (ttl =? 0) then
         now <- timeutils_utcnow ;;
         cs' <- get_caches ;;
         put_caches
           (dict_set py_eq cs' project
              {| alarms := alarms; updated := now |})
       else ret tt) ;;;
      ret alarms
  end.

Definition _refresh (alarm : Alarm) (state : alarm_state)
    (reason : string) (reason_data : pyval) : M unit :=
  emit (Refresh alarm state reason reason_data) ;;;
  call (super_refresh alarm state reason reason_data) ;;;
  let project := PStr (project_id alarm) in
  ttl <- conf_event_alarm_cache_ttl ;;
  cs <- get_caches ;;
  if negb (ttl =? 0) && dict_mem py_eq cs project then
    match dict_get py_eq cs project with
    | Some entry =>
        match dict_get String.eqb (alarms entry) (alarm_id alarm) with
        | Some cached =>
            put_caches
              (dict_set py_eq cs project
                 {| alarms := dict_set String.eqb (alarms entry)
                                (alarm_id alarm) (set_state cached state);
                    updated := updated entry |}) ;;;
            emit (CachedStateSet (project_id alarm) (alarm_id alarm) state)
        | None => raise (Raised KeyError)
        end
    | None => raise (Raised KeyError)
    end
  else ret tt.

(** Update alarm state and fire alarm via alarm notifier. *)
Definition _fire_alarm (alarm : Alarm) (event : Event) : M unit :=
  let state := ALARM in
  let reason :=
    "Event (message_id=" ++ text_type (id event) ++
    ") hit the query of alarm (id=" ++ alarm_id alarm ++ ")" in
  let reason_data :=
    PDict [("type", PStr "event"); ("event", obj event)] in
  _refresh alarm state reason reason_data.

(** The local function [_compare] of [_evaluate_alarm]. *)
Definition _compare (event : Event) (condition : Condition) : M bool :=
  match COMPARATORS (match op condition with Some o => o | None => "eq" end)
  with
  | None => raise (Raised KeyError)
  | Some o =>
      let v := Event.get_value event (field condition) in
      log (LogComparing v condition) ;;;
      match apply_comparator o v (value condition) with
      | inl e => raise (Raised e)
      | inr b => ret b
      end
  end.

(** [for condition in alarm.rule['query']]: [false] when the loop is
    left by [return] at an unmet condition, [true] when it runs to its
    end. *)
Fixpoint query_loop (event : Event) (cs : list Condition) : M bool :=
  match cs with
  | [] => ret true
  | condition :: cs' =>
      met <- _compare event condition ;;
      if negb met then
        log (LogUnmet condition) ;;;
        ret false
      else query_loop event cs'
  end.

(** Evaluate the alarm by referring the received event. *)
Definition _evaluate_alarm (alarm : Alarm) (event : Event) : M unit :=
  log (LogEvaluatingAlarm (alarm_id alarm) (id event)) ;;;
  if negb (repeat_actions alarm) && alarm_state_eqb (state alarm) ALARM then
    log (LogSkip (alarm_id alarm))
  else
    let event_pattern := event_type (rule alarm) in
    match py_getitem (obj event) "event_type" with
    | inl e => raise (Raised e)
    | inr ty =>
        match fnmatch ty event_pattern with
        | inl e => raise (Raised e)
        | inr matched =>
            if negb matched then
              log (LogUninterested (alarm_id alarm))
            else
              all_met <- query_loop event (query (rule alarm)) ;;
              if all_met then _fire_alarm alarm event else ret tt
        end
    end.

(** [for id, alarm in six.iteritems(alarms)], for the raw event [e] and
    its [Event]. *)
Fixpoint alarms_loop (e : pyval) (event : Event)
    (items : list (string * Alarm)) : M unit :=
  match items with
  | [] => ret tt
  | (id, alarm) :: rest =>
      try_except (_evaluate_alarm alarm event)
                 (log (LogFailedAlarm id e)) ;;;
      alarms_loop e event rest
  end.

(** [for e in events] *)
Fixpoint events_loop (events : list pyval) : M unit :=
  match events with
  | [] => ret tt
  | e :: rest =>
      log (LogEvaluatingEvent e) ;;;
      match Event.__init__ e with
      | inl InvalidEvent =>
          log LogAbortingEvent ;;;
          events_loop rest
      | inl (Raised x) => raise (Raised x)
      | inr event =>
          alarms <- _get_project_alarms (project event) ;;
          alarms_loop e event alarms ;;;
          events_loop rest
      end
  end.

(** Evaluate the events by referring related alarms. *)
Definition evaluate_events (events : pyval) : M unit :=
  let events := match events with PList l => l | _ => [events] end in
  log (LogStarting (List.length events)) ;;;
  events_loop events ;;;
  log LogFinished.

End Methods.
End EventAlarmEvaluator.

(** * Observations

    What the properties below are stated with. *)

(** ** What a run did, read off the trace *)

(** The calls of the refresh collaborator: alarm and new state. *)
Definition refresh_calls (t : list effect) : list (Alarm * alarm_state) :=
  flat_map (fun e => match e with
                     | Refresh a st _ _ => [(a, st)]
                     | _ => []
                     end) t.

(** The storage fetches, by project. *)
Definition fetches (t : list effect) : list pyval :=
  flat_map (fun e => match e with GetAlarms p => [p] | _ => [] end) t.

(** The conditions compared, in order. *)
Definition compared (t : list effect) : list Condition :=
  flat_map (fun e => match e with
                     | Logged (LogComparing _ c) => [c]
                     | _ => []
                     end) t.

(** The new state of a state write; [None] for any other effect. *)
Definition written_state (e : effect) : option alarm_state :=
  match e with
  | Refresh _ st _ _ => Some st
  | CachedStateSet _ _ st => Some st
  | _ => None
  end.

(** ** What a condition comes to

    The comparator named by ['op'] (['eq'] when the key is absent) applied
    to [event.get_value(condition['field'])] and [condition['value']]. *)
Definition condition_outcome (event : Event) (c : Condition) : exn + bool :=
  match COMPARATORS (match op c with Some o => o | None => "eq" end) with
  | None => inl (Raised KeyError)
  | Some o =>
      lift (apply_comparator o (Event.get_value event (field c)) (value c))
  end.

Definition holds (event : Event) (c : Condition) : Prop :=
  condition_outcome event c = inr true.

(** The alarm is not held back by the already-fired guard. *)
Definition passes_guard (alarm : Alarm) : Prop :=
  repeat_actions alarm = true \/ state alarm <> ALARM.

(** The log record [_compare] writes for a condition. *)
Definition comparing (event : Event) (c : Condition) : log_record :=
  LogComparing (Event.get_value event (field c)) c.

(** The log record [_evaluate_alarm] starts with. *)
Definition evaluating (alarm : Alarm) (event : Event) : effect :=
  Logged (LogEvaluatingAlarm (alarm_id alarm) (id event)).

(** The reason and the reason data [_fire_alarm] hands to [_refresh]. *)
Definition fire_reason `{Builtins} (alarm : Alarm) (event : Event) : string :=
  "Event (message_id=" ++ text_type (id event) ++
  ") hit the query of alarm (id=" ++ alarm_id alarm ++ ")".

Definition fire_reason_data (event : Event) : pyval :=
  PDict [("type", PStr "event"); ("event", obj event)].

(** An effect that, if it writes an alarm state, writes ['alarm']. *)
Definition alarm_write (e : effect) : Prop :=
  match written_state e with
  | Some st => st = ALARM
  | None => True
  end.

(** The trace of [s'] is that of [s] followed by effects satisfying
    [P]. *)
Definition adds `{Collaborators} (P : effect -> Prop) (s s' : evaluator)
  : Prop :=
  exists l, trace s' = (trace s ++ l)%list /\ Forall P l.

(** A method every run of which takes the evaluator to one related to it
    by [R]. *)
Definition preserves `{Collaborators} (R : evaluator -> evaluator -> Prop)
    {A : Type} (m : M A) : Prop :=
  forall s, R s (snd (m s)).

(** An alarm as it was, or moved into state ['alarm']. *)
Definition alarm_moved (a a' : Alarm) : Prop :=
  a' = a \/ a' = set_state a ALARM.

(** The same dictionary, up to [R] on the values. *)
Definition dict_related {K V : Type} (R : V -> V -> Prop) (d d' : dict K V)
  : Prop :=
  Forall2 (fun x y => fst x = fst y /\ R (snd x) (snd y)) d d'.

(** The same cache entries, with the same alarms, some of them moved
    into state ['alarm']. *)
Definition caches_moved (c c' : dict pyval cache_entry) : Prop :=
  dict_related (fun e e' => updated e' = updated e /\
                            dict_related alarm_moved (alarms e) (alarms e'))
               c c'.

(** The evaluator after the [try] statement around [_evaluate_alarm], for
    the alarm under key [i] and the raw event [e]: an exception adds the
    [LOG.exception] record. *)
Definition after_alarm `{Collaborators} (i : string) (e : pyval)
    (r : (exn + unit) * evaluator) : evaluator :=
  match r with
  | (inl _, s') => add_trace s' [Logged (LogFailedAlarm i e)]
  | (inr _, s') => s'
  end.


(** The raw event is a dictionary whose key [k] is absent or has a falsy
    value. *)
Definition lacks (raw : pyval) (k : string) : Prop :=
  exists d,
    raw = PDict d /\
    match dict_get String.eqb d k with
    | Some v => truthy v = false
    | None => True
    end.

(** What [_get_project_alarms] does once it has found no entry to serve:
    it asks the storage, and with caching on it stores the answer under
    the project with the time of storing. *)
Definition fetch_and_store `{Collaborators} (project : pyval) (s : evaluator)
  : (exn + dict string Alarm) * evaluator :=
  let s1 := add_trace s [GetAlarms project] in
  match get_alarms project (env s) with
  | (inl x, w) => (inl (Raised x), with_env s1 w)
  | (inr fetched, w) =>
      let found := EventAlarmEvaluator.by_alarm_id fetched in
      if event_alarm_cache_ttl s =? 0 then (inr found, with_env s1 w)
      else
        let (now, w') := utcnow w in
        (inr found,
         with_caches (with_env s1 w')
           (dict_set py_eq (caches s) project
              {| alarms := found; updated := now |}))
  end.

(** The caches of [s'] are those of [s], with alarms moved. *)
Definition caches_step `{Collaborators} (s s' : evaluator) : Prop :=
  caches_moved (caches s) (caches s').


(** A call of [_get_project_alarms] on [s] goes to the storage, the
    outside world being [w0] by then: caching is off, or there is no
    entry for the project, or there is one that the clock, read to find
    out, shows to be older than the TTL (a TTL that a [timedelta] can
    hold, for the comparison to be made at all). *)
Definition reaches_storage `{Collaborators} (project : pyval)
    (s : evaluator) (w0 : world) : Prop :=
  (event_alarm_cache_ttl s = 0 /\ w0 = env s) \/
  (dict_get py_eq (caches s) project = None /\ w0 = env s) \/
  (exists entry t0,
     event_alarm_cache_ttl s <> 0 /\
     timedelta_ok (event_alarm_cache_ttl s) = true /\
     dict_get py_eq (caches s) project = Some entry /\
     utcnow (env s) = (t0, w0) /\
     t0 - updated entry > event_alarm_cache_ttl s * 1000000).

(** ** Further observations *)

(** The trait item [t] has the name [name] in its first place. *)
Definition named (name : string) (t : pyval) : bool :=
  match py_index t Event.TRAIT_FIELD with
  | inr k => py_eq k (PStr name)
  | inl _ => false
  end.

(** The trait item [t] is one that sets the project. *)
Definition names_project (t : pyval) : bool :=
  named "tenant_id" t || named "project_id" t.

(** The string has no dot. *)
Fixpoint dotless (s : string) : bool :=
  match s with
  | EmptyString => true
  | String c s' => negb (c =? ".")%char && dotless s'
  end.

(** The time-to-live is as it was, and with a time-to-live of 0 so are
    the caches. *)
Definition uncached `{Collaborators} (s s' : evaluator) : Prop :=
  event_alarm_cache_ttl s' = event_alarm_cache_ttl s /\
  (event_alarm_cache_ttl s = 0 -> caches s' = caches s).

(** The time-to-live is as it was. *)
Definition same_ttl `{Collaborators} (s s' : evaluator) : Prop :=
  event_alarm_cache_ttl s' = event_alarm_cache_ttl s.

(** A trait item the sanitizer turns into text: a list of a name that can
    be a key, a type that is none of integer, float and datetime, and a
    value. *)
Definition plain_trait (t : pyval) : bool :=
  match t with
  | PList (k :: ty :: _ :: _) =>
      hashable k &&
      negb (py_eq ty (PInt 2) || py_eq ty (PStr "integer") ||
            py_eq ty (PInt 3) || py_eq ty (PStr "float") ||
            py_eq ty (PInt 4) || py_eq ty (PStr "datetime"))
  | _ => false
  end.

(** What [_parse_traits] has collected holds text only. *)
Definition all_text (acc : dict pyval pyval * pyval) : Prop :=
  (exists p, snd acc = PStr p) /\
  forall k v, dict_get py_eq (fst acc) k = Some v -> exists s, v = PStr s.

(** The call of the refresh collaborator that firing makes. *)
Definition refreshing `{Builtins} (alarm : Alarm) (event : Event) : effect :=
  Refresh alarm ALARM (fire_reason alarm event) (fire_reason_data event).

(** ** A small world to run the evaluator in

    Integers, booleans and decimal strings convert to integers, only a
    float converts to a float and only a datetime to a datetime, text is
    kept as it is, and names that are strings are matched against
    patterns by [glob].  The storage holds a
    list of alarms and answers with those of the project asked for; it is
    out of reach for the project named ["down"].  The clock stands still
    unless the world is changed from outside. *)

Fixpoint digits_value (acc : Z) (s : string) : option Z :=
  match s with
  | EmptyString => Some acc
  | String c s' =>
      let n := nat_of_ascii c in
      if ((48 <=? n) && (n <=? 57))%nat
      then digits_value (10 * acc + Z.of_nat (n - 48)) s'
      else None
  end.

#[local] Instance simple_builtins : Builtins := {|
  py_int v :=
    match v with
    | PInt z => inr z
    | PBool b => inr (if b then 1 else 0)
    | PStr EmptyString => inl ValueError
    | PStr s =>
        match digits_value 0 s with Some z => inr z | None => inl ValueError end
    | _ => inl TypeError
    end;
  py_float v := match v with PFloat f => inr f | _ => inl ValueError end;
  py_isotime v := match v with PTime t => inr t | _ => inl ValueError end;
  text_type v := match v with PStr s => s | _ => "?" end;
  fnmatch name pat :=
    match name with PStr s => inr (glob s pat) | _ => inl TypeError end
|}.

Record simple_world := {
  clock : Z;
  stored : list Alarm
}.

#[local] Instance simple_collaborators : Collaborators := {|
  world := simple_world;
  utcnow w := (clock w, w);
  get_alarms p w :=
    (if py_eq p (PStr "down") then inl (OtherException "StorageError")
     else inr (filter (fun a => py_eq p (PStr (project_id a))) (stored w)),
     w);
  super_refresh a st _ _ w :=
    (inr tt,
     {| clock := clock w;
        stored := map (fun b => if (alarm_id b =? alarm_id a)%string
                                then set_state b st else b) (stored w) |})
|}.

(** *** Alarms and events of a project ["p1"] *)

Definition trait (name : string) (type_code : Z) (v : pyval) : pyval :=
  PList [PStr name; PInt type_code; v].

Definition raw_event (event_type message_id : string) (ts : list pyval)
  : pyval :=
  PDict [("event_type", PStr event_type);
         ("message_id", PStr message_id);
         ("traits", PList ts)].

Definition make_alarm (i : string) (st : alarm_state) (pattern : string)
    (q : list Condition) : Alarm :=
  {| alarm_id := i; project_id := "p1"; state := st;
     repeat_actions := false;
     rule := {| event_type := pattern; query := q |} |}.

Definition instance_is (v : pyval) : Condition :=
  {| field := "traits.instance_id"; op := None; value := v |}.

(** The deletion of instance ["i-9"] of project ["p1"]. *)
Definition delete_event : pyval :=
  raw_event "compute.instance.delete.end" "m1"
    [trait "instance_id" 1 (PStr "i-9"); trait "tenant_id" 1 (PStr "p1")].

Definition delete_record : Event :=
  {| obj := delete_event;
     id := PStr "m1";
     traits := [(PStr "instance_id", PStr "i-9");
                (PStr "tenant_id", PStr "p1")];
     project := PStr "p1" |}.

(** An event of a project the storage cannot be asked about. *)
Definition down_event : pyval :=
  raw_event "compute.instance.delete.end" "m2"
    [trait "instance_id" 1 (PStr "i-9"); trait "tenant_id" 1 (PStr "down")].

(** An event with a trait of type integer that is no number. *)
Definition bad_trait_event : pyval :=
  raw_event "compute.instance.delete.end" "m3"
    [trait "tenant_id" 1 (PStr "p1"); trait "vcpus" 2 (PStr "many")].

(** Fires on [delete_event]. *)
Definition delete_alarm : Alarm :=
  make_alarm "a1" OK "compute.instance.delete.*" [instance_is (PStr "i-9")].

(** Fires on [delete_event] as well, on two conditions. *)
Definition tenant_alarm : Alarm :=
  make_alarm "a2" UNKNOWN "compute.*"
    [instance_is (PStr "i-9");
     {| field := "traits.tenant_id"; op := Some "ne"; value := PStr "p2" |}].

(** Orders a string against a number. *)
Definition broken_alarm : Alarm :=
  make_alarm "a3" OK "compute.instance.*"
    [{| field := "traits.instance_id"; op := Some "gt"; value := PInt 5 |}].



(** Has fired already. *)
Definition fired_alarm : Alarm :=
  make_alarm "a5" ALARM "compute.instance.delete.*" [instance_is (PStr "i-9")].

(** Its second condition is false; its third would raise. *)
Definition unmet_alarm : Alarm :=
  make_alarm "a6" OK "compute.instance.delete.*"
    [instance_is (PStr "i-9"); instance_is (PStr "i-0");
     {| field := "traits.instance_id"; op := Some "gt"; value := PInt 5 |}].

Definition simple_evaluator (ttl now : Z) (db : list Alarm)
  : @evaluator simple_collaborators :=
  EventAlarmEvaluator.__init__ ttl {| clock := now; stored := db |}.

(** The evaluator with the cache of project ["p1"] filled at time 0,
    looked at [now] microseconds later, the storage emptied since. *)
Definition cached_evaluator (ttl now : Z)
  : @evaluator simple_collaborators :=
  {| event_alarm_cache_ttl := ttl;
     caches := [(PStr "p1",
                 {| alarms := [("a1", delete_alarm)]; updated := 0 |})];
     env := {| clock := now; stored := [] |};
     trace := [] |}.

Definition down_record : Event :=
  {| obj := down_event;
     id := PStr "m2";
     traits := [(PStr "instance_id", PStr "i-9");
                (PStr "tenant_id", PStr "down")];
     project := PStr "down" |}.

(** The evaluator of a fresh process, TTL 60 seconds, at time 0, with two
    alarms of project ["p1"] in the storage. *)
Definition fresh_evaluator : @evaluator simple_collaborators :=
  simple_evaluator 60 0 [delete_alarm; tenant_alarm].

(** An event that names its instance and its project twice. *)
Definition renamed_traits : list pyval :=
  [trait "tenant_id" 1 (PStr "p0");
   trait "instance_id" 1 (PStr "i-1");
   trait "project_id" 1 (PStr "p1");
   trait "instance_id" 1 (PStr "i-2")].

Definition renamed_event : pyval :=
  raw_event "compute.instance.update" "m4" renamed_traits.

Definition renamed_record : Event :=
  {| obj := renamed_event;
     id := PStr "m4";
     traits := [(PStr "tenant_id", PStr "p0");
                (PStr "instance_id", PStr "i-2");
                (PStr "project_id", PStr "p1")];
     project := PStr "p1" |}.

(** An event with a trait item that has no value. *)
Definition short_trait_event : pyval :=
  raw_event "compute.instance.update" "m5"
    [trait "tenant_id" 1 (PStr "p1"); PList [PStr "vcpus"; PInt 2]].

(** The evaluator with an entry for the project ["down"] stored at time
    0, looked at 61 seconds later, with a TTL of 60 seconds. *)
Definition stale_down_evaluator : @evaluator simple_collaborators :=
  {| event_alarm_cache_ttl := 60;
     caches := [(PStr "down", {| alarms := []; updated := 0 |})];
     env := {| clock := 61000000; stored := [] |};
     trace := [] |}.


(** * Properties *)

Local Open Scope list_scope.

Section Properties.
Context `{Builtins} `{Collaborators}.
Import EventAlarmEvaluator.

(** *** The evaluator record and its trace *)

Lemma add_trace_app (s : evaluator) (l1 l2 : list effect) :
  add_trace (add_trace s l1) l2 = add_trace s (l1 ++ l2).
Proof. unfold add_trace; simpl. now rewrite app_assoc. Qed.

Lemma refresh_calls_app (t1 t2 : list effect) :
  refresh_calls (t1 ++ t2) = refresh_calls t1 ++ refresh_calls t2.
Proof. apply flat_map_app. Qed.

Lemma fetches_app (t1 t2 : list effect) :
  fetches (t1 ++ t2) = fetches t1 ++ fetches t2.
Proof. apply flat_map_app. Qed.

Lemma compared_app (t1 t2 : list effect) :
  compared (t1 ++ t2) = compared t1 ++ compared t2.
Proof. apply flat_map_app. Qed.

Lemma refresh_calls_logged (l : list log_record) :
  refresh_calls (map Logged l) = [].
Proof. induction l; simpl; auto. Qed.

Lemma fetches_logged (l : list log_record) : fetches (map Logged l) = [].
Proof. induction l; simpl; auto. Qed.

(** *** The already-fired guard *)

Lemma guard_true (alarm : Alarm) :
  repeat_actions alarm = false -> state alarm = ALARM ->
  negb (repeat_actions alarm) && alarm_state_eqb (state alarm) ALARM = true.
Proof. intros -> ->. reflexivity. Qed.

Lemma guard_false (alarm : Alarm) :
  passes_guard alarm ->
  negb (repeat_actions alarm) && alarm_state_eqb (state alarm) ALARM = false.
Proof.
  intros [Hr | Hs].
  - now rewrite Hr.
  - destruct (state alarm); try reflexivity; try apply andb_false_r.
    now elim Hs.
Qed.

(** C5.  An alarm with [repeat_actions] false that is already in state
    ['alarm'] is skipped, whatever the event: [_evaluate_alarm] returns
    after its two log records; the refresh collaborator is not called,
    the caches (and with them the cached alarm's state) and the outside
    world are as before. *)
Theorem fired_alarm_is_skipped (alarm : Alarm) (event : Event)
    (s : evaluator) :
  repeat_actions alarm = false ->
  state alarm = ALARM ->
  let s' := snd (_evaluate_alarm alarm event s) in
  _evaluate_alarm alarm event s =
    (inr tt,
     add_trace s [Logged (LogEvaluatingAlarm (alarm_id alarm) (id event));
                  Logged (LogSkip (alarm_id alarm))]) /\
  refresh_calls (trace s') = refresh_calls (trace s) /\
  caches s' = caches s /\
  env s' = env s.
Proof.
  intros Hr Hs s'.
  assert (E : _evaluate_alarm alarm event s =
    (inr tt,
     add_trace s [Logged (LogEvaluatingAlarm (alarm_id alarm) (id event));
                  Logged (LogSkip (alarm_id alarm))])).
  { unfold _evaluate_alarm, bind, log, emit.
    rewrite (guard_true alarm Hr Hs). now rewrite add_trace_app. }
  subst s'. rewrite E. simpl. repeat split.
  rewrite refresh_calls_app. simpl. now rewrite app_nil_r.
Qed.

(** *** Conditions and the query loop *)

Lemma add_trace_nil (s : evaluator) : add_trace s [] = s.
Proof. destruct s; unfold add_trace; simpl. now rewrite app_nil_r. Qed.

Lemma compare_value (event : Event) (c : Condition) (b : bool)
    (s : evaluator) :
  condition_outcome event c = inr b ->
  _compare event c s = (inr b, add_trace s [Logged (comparing event c)]).
Proof.
  unfold condition_outcome, _compare, comparing, bind, log, emit, raise, ret.
  destruct (COMPARATORS _); [|discriminate].
  destruct (apply_comparator _ _ _); simpl; congruence.
Qed.

Lemma compare_raises (event : Event) (c : Condition) (x : exn)
    (s : evaluator) :
  condition_outcome event c = inl x ->
  exists l, _compare event c s = (inl x, add_trace s (map Logged l)).
Proof.
  unfold condition_outcome, _compare, bind, log, emit, raise, ret.
  destruct (COMPARATORS _).
  - destruct (apply_comparator _ _ _); simpl; [|discriminate].
    intros [= <-]. now exists [comparing event c].
  - intros [= <-]. exists []. simpl. now rewrite add_trace_nil.
Qed.

Lemma query_loop_all_hold (event : Event) (cs : list Condition) :
  Forall (holds event) cs ->
  forall s,
    query_loop event cs s =
      (inr true, add_trace s (map Logged (map (comparing event) cs))).
Proof.
  induction 1 as [|c cs Hc _ IH]; intros s; simpl.
  - unfold ret. now rewrite add_trace_nil.
  - unfold bind at 1. rewrite (compare_value event c true s Hc). simpl.
    rewrite IH. now rewrite add_trace_app.
Qed.

Lemma query_loop_first_unmet (event : Event)
    (pre : list Condition) (c : Condition) (post : list Condition) :
  Forall (holds event) pre ->
  condition_outcome event c = inr false ->
  forall s,
    query_loop event (pre ++ c :: post) s =
      (inr false,
       add_trace s (map Logged (map (comparing event) (pre ++ [c]) ++
                                [LogUnmet c]))).
Proof.
  induction 1 as [|c0 pre Hc0 _ IH]; intros Hc s; simpl.
  - unfold bind at 1. rewrite (compare_value event c false s Hc). simpl.
    unfold bind, log, emit, ret. now rewrite add_trace_app.
  - unfold bind at 1. rewrite (compare_value event c0 true s Hc0). simpl.
    rewrite (IH Hc). now rewrite add_trace_app.
Qed.

Lemma query_loop_first_raises (event : Event)
    (pre : list Condition) (c : Condition) (post : list Condition)
    (x : exn) :
  Forall (holds event) pre ->
  condition_outcome event c = inl x ->
  forall s,
  exists l,
    query_loop event (pre ++ c :: post) s =
      (inl x, add_trace s (map Logged l)).
Proof.
  induction 1 as [|c0 pre Hc0 _ IH]; intros Hc s; simpl.
  - unfold bind at 1.
    destruct (compare_raises event c x s Hc) as [l ->]. now exists l.
  - unfold bind at 1. rewrite (compare_value event c0 true s Hc0). simpl.
    destruct (IH Hc (add_trace s [Logged (comparing event c0)])) as [l ->].
    exists (comparing event c0 :: l). now rewrite add_trace_app.
Qed.

(** Either every condition of a query holds, or there is a first one
    that does not: it is false, or it raises. *)
Lemma query_cases (event : Event) (cs : list Condition) :
  Forall (holds event) cs \/
  exists pre c post,
    cs = pre ++ c :: post /\ Forall (holds event) pre /\
    (condition_outcome event c = inr false \/
     exists x, condition_outcome event c = inl x).
Proof.
  induction cs as [|c cs [IH | (pre & c' & post & -> & Hpre & Hc')]].
  - left. constructor.
  - destruct (condition_outcome event c) as [x | [|]] eqn:E.
    + right. exists [], c, cs. split; [reflexivity|].
      split; [constructor|]. right. now exists x.
    + left. now constructor.
    + right. exists [], c, cs. split; [reflexivity|].
      split; [constructor|]. now left.
  - destruct (condition_outcome event c) as [x | [|]] eqn:E.
    + right. exists [], c, (pre ++ c' :: post). split; [reflexivity|].
      split; [constructor|]. right. now exists x.
    + right. exists (c :: pre), c', post. split; [reflexivity|].
      split; [now constructor | assumption].
    + right. exists [], c, (pre ++ c' :: post). split; [reflexivity|].
      split; [constructor|]. now left.
Qed.

Lemma not_all_hold (event : Event)
    (pre : list Condition) (c : Condition) (post : list Condition) :
  condition_outcome event c <> inr true ->
  ~ Forall (holds event) (pre ++ c :: post).
Proof.
  intros Hc Hall. apply Forall_app in Hall as [_ Hall].
  inversion Hall; subst. now apply Hc.
Qed.

(** *** Firing *)

(** Firing calls the refresh collaborator once, with state ['alarm'];
    if the call returns and the alarm's project has a cache entry, the
    cached copy is then set to that state. *)
Lemma fire_alarm_effects (alarm : Alarm) (event : Event) (s : evaluator) :
  exists l,
    trace (snd (_fire_alarm alarm event s)) =
      trace s ++
      Refresh alarm ALARM (fire_reason alarm event) (fire_reason_data event)
      :: l /\
    (l = [] \/
     l = [CachedStateSet (project_id alarm) (alarm_id alarm) ALARM]).
Proof.
  unfold _fire_alarm, _refresh, bind, emit, call, raise, ret,
    conf_event_alarm_cache_ttl, get_caches, put_caches.
  fold (fire_reason alarm event). fold (fire_reason_data event).
  simpl.
  destruct (super_refresh _ _ _ _ _) as [[e | []] w]; simpl.
  - exists []. auto.
  - destruct (negb _ && dict_mem _ _ _); simpl; [|exists []; auto].
    destruct (dict_get py_eq _ _); simpl; [|exists []; auto].
    destruct (dict_get String.eqb _ _); simpl; [|exists []; auto].
    eexists. split; [|right; reflexivity]. now rewrite <- app_assoc.
Qed.

Lemma fire_alarm_refresh_calls (alarm : Alarm) (event : Event)
    (s : evaluator) :
  refresh_calls (trace (snd (_fire_alarm alarm event s))) =
    refresh_calls (trace s) ++ [(alarm, ALARM)].
Proof.
  destruct (fire_alarm_effects alarm event s) as (l & -> & [-> | ->]);
    rewrite refresh_calls_app; reflexivity.
Qed.

(** *** [_evaluate_alarm], case by case *)

Section EvaluateAlarm.
Variables (alarm : Alarm) (event : Event) (ty : pyval).
Hypothesis Hguard : passes_guard alarm.
Hypothesis Hty : py_getitem (obj event) "event_type" = inr ty.

Lemma evaluate_alarm_uninterested (s : evaluator) :
  fnmatch ty (event_type (rule alarm)) = inr false ->
  _evaluate_alarm alarm event s =
    (inr tt,
     add_trace s [evaluating alarm event;
                  Logged (LogUninterested (alarm_id alarm))]).
Proof.
  intros Hm. unfold _evaluate_alarm, bind at 1, log at 1, emit.
  rewrite (guard_false alarm Hguard), Hty. simpl. rewrite Hm. simpl.
  unfold log, emit. now rewrite add_trace_app.
Qed.

Lemma evaluate_alarm_unmet (s : evaluator)
    (pre : list Condition) (c : Condition) (post : list Condition) :
  fnmatch ty (event_type (rule alarm)) = inr true ->
  query (rule alarm) = pre ++ c :: post ->
  Forall (holds event) pre ->
  condition_outcome event c = inr false ->
  _evaluate_alarm alarm event s =
    (inr tt,
     add_trace s (evaluating alarm event ::
                  map Logged (map (comparing event) (pre ++ [c]) ++
                              [LogUnmet c]))).
Proof.
  intros Hm Hq Hpre Hc. unfold _evaluate_alarm, bind at 1, log at 1, emit.
  rewrite (guard_false alarm Hguard), Hty. simpl. rewrite Hm. simpl.
  unfold bind. rewrite Hq, (query_loop_first_unmet event pre c post Hpre Hc).
  unfold ret. now rewrite add_trace_app.
Qed.

Lemma evaluate_alarm_raises (s : evaluator)
    (pre : list Condition) (c : Condition) (post : list Condition)
    (x : exn) :
  fnmatch ty (event_type (rule alarm)) = inr true ->
  query (rule alarm) = pre ++ c :: post ->
  Forall (holds event) pre ->
  condition_outcome event c = inl x ->
  exists l,
    _evaluate_alarm alarm event s =
      (inl x, add_trace s (map Logged l)).
Proof.
  intros Hm Hq Hpre Hc. unfold _evaluate_alarm, bind at 1, log at 1, emit.
  rewrite (guard_false alarm Hguard), Hty. simpl. rewrite Hm. simpl.
  unfold bind. rewrite Hq. fold (evaluating alarm event).
  destruct (query_loop_first_raises event pre c post x Hpre Hc
              (add_trace s [evaluating alarm event])) as [l ->].
  exists (LogEvaluatingAlarm (alarm_id alarm) (id event) :: l).
  now rewrite add_trace_app.
Qed.

Lemma evaluate_alarm_fires (s : evaluator) :
  fnmatch ty (event_type (rule alarm)) = inr true ->
  Forall (holds event) (query (rule alarm)) ->
  _evaluate_alarm alarm event s =
    _fire_alarm alarm event
      (add_trace s (evaluating alarm event ::
                    map Logged (map (comparing event)
                                  (query (rule alarm))))).
Proof.
  intros Hm Hall. unfold _evaluate_alarm, bind at 1, log at 1, emit.
  rewrite (guard_false alarm Hguard), Hty. simpl. rewrite Hm. simpl.
  unfold bind. rewrite (query_loop_all_hold event _ Hall).
  now rewrite add_trace_app.
Qed.

Lemma evaluate_alarm_fnmatch_raises (s : evaluator) (x : pyexc) :
  fnmatch ty (event_type (rule alarm)) = inl x ->
  _evaluate_alarm alarm event s =
    (inl (Raised x), add_trace s [evaluating alarm event]).
Proof.
  intros Hm. unfold _evaluate_alarm, bind at 1, log at 1, emit.
  rewrite (guard_false alarm Hguard), Hty. simpl. now rewrite Hm.
Qed.

(** When the pattern does not match or some condition does not hold,
    the evaluator is left as it was, up to log records. *)
Lemma evaluate_alarm_no_fire (s : evaluator) :
  ~ (fnmatch ty (event_type (rule alarm)) = inr true /\
     Forall (holds event) (query (rule alarm))) ->
  exists l,
    snd (_evaluate_alarm alarm event s) = add_trace s (map Logged l).
Proof.
  intros Hn.
  destruct (fnmatch ty (event_type (rule alarm))) as [x | [|]] eqn:Hm.
  - rewrite (evaluate_alarm_fnmatch_raises s x Hm).
    eexists [_]. reflexivity.
  - destruct (query_cases event (query (rule alarm)))
      as [Hall | (pre & c & post & Hq & Hpre & [Hc | [x Hc]])].
    + elim Hn. now split.
    + rewrite (evaluate_alarm_unmet s pre c post Hm Hq Hpre Hc).
      eexists (_ :: _). reflexivity.
    + destruct (evaluate_alarm_raises s pre c post x Hm Hq Hpre Hc)
        as [l ->]. now exists l.
  - rewrite (evaluate_alarm_uninterested s Hm).
    eexists [_; _]. reflexivity.
Qed.
End EvaluateAlarm.

Lemma list_neq_snoc {A : Type} (l : list A) (x : A) : l <> l ++ [x].
Proof.
  intros E. apply (f_equal (@List.length A)) in E.
  rewrite length_app in E. simpl in E. lia.
Qed.

(** C1.  For an alarm that passes the already-fired guard and an event
    with its ['event_type'], [_evaluate_alarm] fires the alarm (calls the
    refresh collaborator for it, with state ['alarm']) if and only if the
    alarm's pattern matches the event type ([fnmatch] returns true) and
    every condition of the query holds.  When it does not fire, it
    leaves the evaluator as it was, up to log records.  It returns
    without firing and without comparing any condition when the pattern
    does not match, and at the first false condition, the conditions
    after it not being compared. *)
Theorem evaluate_alarm_fires_iff (alarm : Alarm) (event : Event)
    (ty : pyval) (s : evaluator) :
  passes_guard alarm ->
  py_getitem (obj event) "event_type" = inr ty ->
  let r := _evaluate_alarm alarm event s in
  let fired :=
    refresh_calls (trace (snd r)) =
      refresh_calls (trace s) ++ [(alarm, ALARM)] in
  (fired <->
     fnmatch ty (event_type (rule alarm)) = inr true /\
     Forall (holds event) (query (rule alarm))) /\
  (~ fired ->
     refresh_calls (trace (snd r)) = refresh_calls (trace s) /\
     caches (snd r) = caches s /\ env (snd r) = env s) /\
  (fnmatch ty (event_type (rule alarm)) = inr false ->
     fst r = inr tt /\ compared (trace (snd r)) = compared (trace s)) /\
  (forall pre c post,
     fnmatch ty (event_type (rule alarm)) = inr true ->
     query (rule alarm) = pre ++ c :: post ->
     Forall (holds event) pre ->
     condition_outcome event c = inr false ->
     fst r = inr tt /\
     compared (trace (snd r)) = compared (trace s) ++ pre ++ [c]).
Proof.
  intros Hguard Hty r fired.
  assert (Hfire :
    fnmatch ty (event_type (rule alarm)) = inr true /\
    Forall (holds event) (query (rule alarm)) -> fired).
  { intros [Hm Hall]. subst fired r.
    rewrite (evaluate_alarm_fires alarm event ty Hguard Hty s Hm Hall).
    rewrite fire_alarm_refresh_calls. simpl.
    rewrite refresh_calls_app. simpl.
    now rewrite refresh_calls_logged, app_nil_r. }
  assert (Hquiet :
    ~ (fnmatch ty (event_type (rule alarm)) = inr true /\
       Forall (holds event) (query (rule alarm))) ->
    refresh_calls (trace (snd r)) = refresh_calls (trace s) /\
    caches (snd r) = caches s /\ env (snd r) = env s).
  { intros Hn. subst r.
    destruct (evaluate_alarm_no_fire alarm event ty Hguard Hty s Hn)
      as [l ->]. simpl.
    now rewrite refresh_calls_app, refresh_calls_logged, app_nil_r. }
  assert (Hdec :
    (fnmatch ty (event_type (rule alarm)) = inr true /\
     Forall (holds event) (query (rule alarm))) \/
    ~ (fnmatch ty (event_type (rule alarm)) = inr true /\
       Forall (holds event) (query (rule alarm)))).
  { destruct (fnmatch ty (event_type (rule alarm))) as [x | [|]];
      [right; intros [? _]; discriminate | |
       right; intros [? _]; discriminate].
    destruct (query_cases event (query (rule alarm)))
      as [Hall | (pre & c & post & Hq & _ & Hc)]; [now left|].
    right. intros [_ Hall]. rewrite Hq in Hall.
    apply (not_all_hold event pre c post) in Hall; [assumption|].
    destruct Hc as [-> | [x ->]]; discriminate. }
  split; [|split; [|split]].
  - split; [|exact Hfire].
    intros Hf. destruct Hdec as [Hyes | Hno]; [exact Hyes|].
    destruct (Hquiet Hno) as [E _]. unfold fired in Hf. rewrite E in Hf.
    now apply list_neq_snoc in Hf.
  - intros Hnf. apply Hquiet. intros Hyes. now apply Hnf, Hfire.
  - intros Hm. subst r.
    rewrite (evaluate_alarm_uninterested alarm event ty Hguard Hty s Hm).
    simpl. split; [reflexivity|].
    rewrite compared_app. simpl. now rewrite app_nil_r.
  - intros pre c post Hm Hq Hpre Hc. subst r.
    rewrite (evaluate_alarm_unmet alarm event ty Hguard Hty s pre c post
               Hm Hq Hpre Hc).
    simpl. split; [reflexivity|].
    rewrite compared_app. f_equal. simpl.
    rewrite map_app, compared_app. simpl. rewrite app_nil_r.
    clear. induction (pre ++ [c]) as [|c0 l IH]; simpl; congruence.
Qed.

(** *** Relating the evaluator before and after a method *)

Section Preserves.
Variable R : evaluator -> evaluator -> Prop.
Hypothesis R_refl : forall s, R s s.
Hypothesis R_trans : forall s1 s2 s3, R s1 s2 -> R s2 s3 -> R s1 s3.

Lemma preserves_ret {A : Type} (a : A) : preserves R (ret a).
Proof. intros s. apply R_refl. Qed.

Lemma preserves_raise {A : Type} (x : exn) : preserves R (@raise _ A x).
Proof. intros s. apply R_refl. Qed.

Lemma preserves_get_caches : preserves R get_caches.
Proof. intros s. apply R_refl. Qed.

Lemma preserves_conf : preserves R conf_event_alarm_cache_ttl.
Proof. intros s. apply R_refl. Qed.

Lemma preserves_bind {A B : Type} (m : M A) (k : A -> M B) :
  preserves R m -> (forall a, preserves R (k a)) -> preserves R (bind m k).
Proof.
  intros Hm Hk s. unfold bind. specialize (Hm s).
  destruct (m s) as [[x | a] s1]; simpl in *; [assumption|].
  eapply R_trans; [exact Hm | apply Hk].
Qed.

Lemma preserves_try_except {A : Type} (m handler : M A) :
  preserves R m -> preserves R handler ->
  preserves R (try_except m handler).
Proof.
  intros Hm Hh s. unfold try_except. specialize (Hm s).
  destruct (m s) as [[x | a] s1]; simpl in *; [|assumption].
  eapply R_trans; [exact Hm | apply Hh].
Qed.
End Preserves.

(** Breaks a method down to its steps, leaving those no hint covers. *)
Ltac preserves_steps db :=
  repeat first
    [ solve [auto with db]
    | apply preserves_bind; [solve [eauto with db] | | intro]
    | apply preserves_try_except; [solve [eauto with db] | | ]
    | match goal with
      | |- preserves _ (match ?x with _ => _ end) => destruct x
      | |- preserves _ (let (_, _) := ?x in _) => destruct x
      end ].

(** *** State writes only ever write ['alarm'] *)

Lemma adds_refl (P : effect -> Prop) (s : evaluator) : adds P s s.
Proof. exists []. now rewrite app_nil_r. Qed.

Lemma adds_trans (P : effect -> Prop) (s1 s2 s3 : evaluator) :
  adds P s1 s2 -> adds P s2 s3 -> adds P s1 s3.
Proof.
  intros (l1 & E1 & F1) (l2 & E2 & F2). exists (l1 ++ l2).
  rewrite E2, E1, app_assoc. split; [reflexivity|]. now apply Forall_app.
Qed.

Lemma adds_emit (P : effect -> Prop) (e : effect) :
  P e -> preserves (adds P) (emit e).
Proof. intros He s. exists [e]. simpl. auto. Qed.

Lemma adds_put_caches (P : effect -> Prop) (c : dict pyval cache_entry) :
  preserves (adds P) (put_caches c).
Proof. intros s. exists []. simpl. now rewrite app_nil_r. Qed.

Lemma adds_call (P : effect -> Prop) {A : Type}
    (f : world -> (pyexc + A) * world) :
  preserves (adds P) (call f).
Proof.
  intros s. exists []. unfold call. destruct (f (env s)); simpl.
  now rewrite app_nil_r.
Qed.

Create HintDb writes discriminated.
Hint Resolve adds_refl adds_trans preserves_ret preserves_raise
  preserves_get_caches preserves_conf adds_put_caches adds_call : writes.

Lemma writes_log (r : log_record) : preserves (adds alarm_write) (log r).
Proof. apply adds_emit. exact I. Qed.

Lemma writes_get_alarms (project : pyval) :
  preserves (adds alarm_write) (emit (GetAlarms project)).
Proof. apply adds_emit. exact I. Qed.

Lemma writes_refresh_alarm (alarm : Alarm) (reason : string)
    (reason_data : pyval) :
  preserves (adds alarm_write)
    (emit (Refresh alarm ALARM reason reason_data)).
Proof. apply adds_emit. reflexivity. Qed.

Lemma writes_cached_alarm (project a : string) :
  preserves (adds alarm_write) (emit (CachedStateSet project a ALARM)).
Proof. apply adds_emit. reflexivity. Qed.

Hint Resolve writes_log writes_get_alarms writes_refresh_alarm
  writes_cached_alarm : writes.

Lemma writes_get_project_alarms (project : pyval) :
  preserves (adds alarm_write) (_get_project_alarms project).
Proof.
  unfold _get_project_alarms, cached_alarms, has_key,
    timeutils_is_older_than, timeutils_utcnow, storage_get_alarms.
  preserves_steps writes.
Qed.

Lemma writes_fire_alarm (alarm : Alarm) (event : Event) :
  preserves (adds alarm_write) (_fire_alarm alarm event).
Proof. unfold _fire_alarm, _refresh. preserves_steps writes. Qed.

Lemma writes_query_loop (event : Event) (cs : list Condition) :
  preserves (adds alarm_write) (query_loop event cs).
Proof.
  induction cs as [|c cs IH]; simpl; [auto with writes|].
  unfold _compare. preserves_steps writes.
Qed.

Hint Resolve writes_get_project_alarms writes_fire_alarm
  writes_query_loop : writes.

Lemma writes_evaluate_alarm (alarm : Alarm) (event : Event) :
  preserves (adds alarm_write) (_evaluate_alarm alarm event).
Proof. unfold _evaluate_alarm. preserves_steps writes. Qed.

Hint Resolve writes_evaluate_alarm : writes.

Lemma writes_alarms_loop (e : pyval) (event : Event)
    (items : list (string * Alarm)) :
  preserves (adds alarm_write) (alarms_loop e event items).
Proof.
  induction items as [|[i a] items IH]; simpl; [auto with writes|].
  preserves_steps writes.
Qed.

Hint Resolve writes_alarms_loop : writes.

Lemma writes_events_loop (events : list pyval) :
  preserves (adds alarm_write) (events_loop events).
Proof.
  induction events as [|e events IH]; simpl; [auto with writes|].
  preserves_steps writes.
Qed.

Lemma writes_evaluate_events (events : pyval) :
  preserves (adds alarm_write) (evaluate_events events).
Proof.
  pose proof writes_events_loop.
  unfold evaluate_events. preserves_steps writes.
Qed.

(** *** Cached alarms only ever move into ['alarm'] *)

Lemma dict_related_refl {K V : Type} (R : V -> V -> Prop) :
  (forall v, R v v) -> forall d : dict K V, dict_related R d d.
Proof.
  intros HR d. induction d as [|[k v] d IH]; constructor; auto.
Qed.

Lemma dict_related_trans {K V : Type} (R : V -> V -> Prop) :
  (forall a b c, R a b -> R b c -> R a c) ->
  forall d1 d2 d3 : dict K V,
    dict_related R d1 d2 -> dict_related R d2 d3 -> dict_related R d1 d3.
Proof.
  intros HR d1 d2 d3 H12. revert d3.
  induction H12 as [|x y d1 d2 [Hk Hv] _ IH]; intros d3 H23;
    inversion H23 as [|y' z d2' d3' [Hk' Hv'] Hrest]; subst;
    constructor.
  - split; [congruence | eauto].
  - now apply IH.
Qed.

Lemma dict_set_related {K V : Type} (eqb : K -> K -> bool)
    (R : V -> V -> Prop) (d : dict K V) (k : K) (v0 v : V) :
  (forall v, R v v) ->
  dict_get eqb d k = Some v0 -> R v0 v ->
  dict_related R d (dict_set eqb d k v).
Proof.
  intros HR. induction d as [|[k' v'] d IH]; simpl; [discriminate|].
  destruct (eqb k' k).
  - intros [= ->] Hv. constructor; [now split|].
    now apply dict_related_refl.
  - intros Hg Hv. constructor; [now split | now apply IH].
Qed.

Lemma alarm_moved_refl (a : Alarm) : alarm_moved a a.
Proof. now left. Qed.

Lemma alarm_moved_trans (a b c : Alarm) :
  alarm_moved a b -> alarm_moved b c -> alarm_moved a c.
Proof.
  unfold alarm_moved. intros [-> | ->] [-> | ->]; auto.
Qed.

Lemma caches_step_refl (s : evaluator) : caches_step s s.
Proof.
  apply dict_related_refl. intros e. split; [reflexivity|].
  apply dict_related_refl, alarm_moved_refl.
Qed.

Lemma caches_step_trans (s1 s2 s3 : evaluator) :
  caches_step s1 s2 -> caches_step s2 s3 -> caches_step s1 s3.
Proof.
  apply dict_related_trans. intros a b c [E1 D1] [E2 D2].
  split; [congruence|].
  eapply dict_related_trans; eauto using alarm_moved_trans.
Qed.

Lemma caches_step_same (s s' : evaluator) :
  caches s' = caches s -> caches_step s s'.
Proof. unfold caches_step. intros ->. apply (caches_step_refl s). Qed.

Lemma moves_emit (e : effect) : preserves caches_step (emit e).
Proof. intros s. now apply caches_step_same. Qed.

Lemma moves_call {A : Type} (f : world -> (pyexc + A) * world) :
  preserves caches_step (call f).
Proof.
  intros s. apply caches_step_same. unfold call.
  now destruct (f (env s)).
Qed.

(** Firing leaves the caches as they were but for the cached copy of
    the alarm, which is moved into state ['alarm']. *)
Lemma moves_fire_alarm (alarm : Alarm) (event : Event) :
  preserves caches_step (_fire_alarm alarm event).
Proof.
  intros s.
  unfold _fire_alarm, _refresh, bind, emit, call, raise, ret,
    conf_event_alarm_cache_ttl, get_caches, put_caches, log.
  simpl.
  destruct (super_refresh _ _ _ _ _) as [[e | []] w]; simpl;
    [now apply caches_step_same|].
  destruct (negb _ && dict_mem _ _ _); simpl;
    [|now apply caches_step_same].
  destruct (dict_get py_eq _ _) as [entry|] eqn:Eentry; simpl;
    [|now apply caches_step_same].
  destruct (dict_get String.eqb _ _) as [cached|] eqn:Ecached; simpl;
    [|now apply caches_step_same].
  unfold caches_step; simpl.
  eapply dict_set_related; [| exact Eentry |].
  - intros e. split; [reflexivity|].
    apply dict_related_refl, alarm_moved_refl.
  - simpl. split; [reflexivity|].
    eapply dict_set_related; [apply alarm_moved_refl | exact Ecached |].
    now right.
Qed.

Create HintDb moves discriminated.
Hint Resolve caches_step_refl caches_step_trans preserves_ret
  preserves_raise preserves_get_caches preserves_conf moves_emit moves_call
  moves_fire_alarm : moves.

Lemma moves_log (r : log_record) : preserves caches_step (log r).
Proof. apply moves_emit. Qed.

Hint Resolve moves_log : moves.

Lemma moves_query_loop (event : Event) (cs : list Condition) :
  preserves caches_step (query_loop event cs).
Proof.
  induction cs as [|c cs IH]; simpl; [auto with moves|].
  unfold _compare. preserves_steps moves.
Qed.

Hint Resolve moves_query_loop : moves.

Lemma moves_evaluate_alarm (alarm : Alarm) (event : Event) :
  preserves caches_step (_evaluate_alarm alarm event).
Proof. unfold _evaluate_alarm. preserves_steps moves. Qed.

Hint Resolve moves_evaluate_alarm : moves.

Lemma moves_alarms_loop (e : pyval) (event : Event)
    (items : list (string * Alarm)) :
  preserves caches_step (alarms_loop e event items).
Proof.
  induction items as [|[i a] items IH]; simpl; [auto with moves|].
  preserves_steps moves.
Qed.

(** C9.  Every alarm state write of the evaluator writes ['alarm'].
    Whatever [evaluate_events] is given, each call of the refresh
    collaborator and each assignment to a cached alarm's state it adds
    to the trace carries the state ['alarm'], never ['ok'] or
    ['insufficient data'].  On the caches themselves: evaluating the
    alarms of an event leaves every cache entry in place with the same
    alarms, each as it was or moved into state ['alarm']. *)
Theorem state_writes_are_alarm :
  (forall (events : pyval) (s : evaluator),
     exists l,
       trace (snd (evaluate_events events s)) = trace s ++ l /\
       forall e st, In e l -> written_state e = Some st ->
                    st = ALARM /\ st <> OK /\ st <> UNKNOWN) /\
  (forall (e : pyval) (event : Event) (items : list (string * Alarm))
          (s : evaluator),
     caches_moved (caches s) (caches (snd (alarms_loop e event items s)))).
Proof.
  split.
  - intros events s.
    destruct (writes_evaluate_events events s) as (l & E & F).
    exists l. split; [exact E|].
    intros e st Hin Hw. rewrite Forall_forall in F.
    specialize (F e Hin). unfold alarm_write in F. rewrite Hw in F.
    subst st. repeat split; discriminate.
  - intros e event items s. apply moves_alarms_loop.
Qed.

(** *** The loop over the alarms of an event *)

Lemma alarms_loop_step (e : pyval) (event : Event) (i : string)
    (a : Alarm) (rest : list (string * Alarm)) (s : evaluator) :
  alarms_loop e event ((i, a) :: rest) s =
    alarms_loop e event rest (after_alarm i e (_evaluate_alarm a event s)).
Proof.
  simpl. unfold bind, try_except, after_alarm, log, emit.
  now destruct (_evaluate_alarm a event s) as [[x | []] s1].
Qed.

Lemma alarms_loop_returns (e : pyval) (event : Event)
    (items : list (string * Alarm)) (s : evaluator) :
  fst (alarms_loop e event items s) = inr tt.
Proof.
  revert s. induction items as [|[i a] items IH]; intros s.
  - reflexivity.
  - rewrite alarms_loop_step. apply IH.
Qed.

Lemma alarms_loop_app (e : pyval) (event : Event)
    (l1 l2 : list (string * Alarm)) (s : evaluator) :
  alarms_loop e event (l1 ++ l2) s =
    alarms_loop e event l2 (snd (alarms_loop e event l1 s)).
Proof.
  revert s. induction l1 as [|[i a] l1 IH]; intros s.
  - reflexivity.
  - simpl app. rewrite !alarms_loop_step. apply IH.
Qed.

Lemma evaluate_alarm_starts (a : Alarm) (event : Event) (s : evaluator) :
  exists l,
    trace (snd (_evaluate_alarm a event s)) =
      trace s ++ evaluating a event :: l.
Proof.
  unfold _evaluate_alarm, bind at 1, log at 1, emit.
  match goal with
  | |- context [snd (?k (add_trace s ?l))] =>
      assert (Hk : preserves (adds alarm_write) k)
        by preserves_steps writes;
      destruct (Hk (add_trace s l)) as (l' & E & _)
  end.
  exists l'. rewrite E. simpl. now rewrite <- app_assoc.
Qed.

Lemma after_alarm_starts (i : string) (e : pyval) (a : Alarm)
    (event : Event) (s : evaluator) :
  exists l,
    trace (after_alarm i e (_evaluate_alarm a event s)) =
      trace s ++ evaluating a event :: l.
Proof.
  destruct (evaluate_alarm_starts a event s) as [l E].
  unfold after_alarm.
  destruct (_evaluate_alarm a event s) as [[x | []] s1]; simpl in *.
  - exists (l ++ [Logged (LogFailedAlarm i e)]).
    now rewrite E, <- app_assoc.
  - now exists l.
Qed.

Lemma alarms_loop_evaluates (e : pyval) (event : Event)
    (items : list (string * Alarm)) (s : evaluator) :
  exists l,
    trace (snd (alarms_loop e event items s)) = trace s ++ l /\
    forall i a, In (i, a) items -> In (evaluating a event) l.
Proof.
  revert s. induction items as [|[i0 a0] items IH]; intros s.
  - exists []. simpl. now rewrite app_nil_r.
  - rewrite alarms_loop_step.
    destruct (after_alarm_starts i0 e a0 event s) as [l1 E1].
    destruct (IH (after_alarm i0 e (_evaluate_alarm a0 event s)))
      as (l2 & E2 & Hin).
    exists ((evaluating a0 event :: l1) ++ l2).
    rewrite E2, E1, <- app_assoc. split; [reflexivity|].
    intros i a [[= <- <-] | Hi].
    + now left.
    + apply in_or_app. right. eauto.
Qed.

Lemma events_loop_evaluated (e : pyval) (event : Event)
    (items : list (string * Alarm)) (rest : list pyval)
    (s0 s : evaluator) :
  Event.__init__ e = inr event ->
  _get_project_alarms (project event)
    (add_trace s0 [Logged (LogEvaluatingEvent e)]) = (inr items, s) ->
  events_loop (e :: rest) s0 =
    events_loop rest (snd (alarms_loop e event items s)).
Proof.
  intros Hev Hget. simpl. unfold bind at 1, log at 1, emit.
  rewrite Hev. unfold bind at 1. rewrite Hget. unfold bind.
  pose proof (alarms_loop_returns e event items s) as Hr.
  destruct (alarms_loop e event items s) as [[x | []] s1];
    [discriminate | reflexivity].
Qed.

(** C6.  For an event and the alarms found for its project, the loop
    over the alarms never raises; it evaluates every alarm of the
    mapping; an exception raised while matching or firing one alarm is
    caught and logged with the alarm's key and the event, and the loop
    goes on with the alarms after it; and after the alarms of an event,
    whatever failed among them, [evaluate_events] goes on with the later
    events of the batch. *)
Theorem alarm_failure_is_isolated (e : pyval) (event : Event)
    (items : list (string * Alarm)) (s : evaluator) :
  let r := alarms_loop e event items s in
  fst r = inr tt /\
  (exists l,
     trace (snd r) = trace s ++ l /\
     forall i a, In (i, a) items -> In (evaluating a event) l) /\
  (forall pre i a post x s1,
     items = pre ++ (i, a) :: post ->
     _evaluate_alarm a event (snd (alarms_loop e event pre s)) =
       (inl x, s1) ->
     r = alarms_loop e event post
           (add_trace s1 [Logged (LogFailedAlarm i e)])) /\
  (forall rest s0,
     Event.__init__ e = inr event ->
     _get_project_alarms (project event)
       (add_trace s0 [Logged (LogEvaluatingEvent e)]) = (inr items, s) ->
     events_loop (e :: rest) s0 = events_loop rest (snd r)).
Proof.
  intros r. subst r. split; [|split; [|split]].
  - apply alarms_loop_returns.
  - apply alarms_loop_evaluates.
  - intros pre i a post x s1 -> Hx.
    rewrite alarms_loop_app, alarms_loop_step, Hx. reflexivity.
  - intros rest s0. apply events_loop_evaluated.
Qed.

(** *** Operators the table does not have *)




(** *** Events that cannot be constructed *)

Lemma validate_rejects (raw : pyval) :
  truthy raw = false \/ lacks raw "event_type" \/ lacks raw "message_id" ->
  Event._validate raw = inl InvalidEvent.
Proof.
  unfold Event._validate, Event.missing, py_get.
  intros [Hf | [(d & -> & Hk) | (d & -> & Hk)]].
  - now rewrite Hf.
  - destruct (truthy (PDict d)); simpl; [|reflexivity].
    destruct (dict_get String.eqb d "event_type") as [v|];
      [now rewrite Hk | reflexivity].
  - destruct (truthy (PDict d)); simpl; [|reflexivity].
    destruct (negb (truthy _)); [reflexivity|].
    destruct (dict_get String.eqb d "message_id") as [v|];
      [now rewrite Hk | reflexivity].
Qed.

Lemma events_loop_invalid (raw : pyval) (rest : list pyval)
    (s : evaluator) :
  Event.__init__ raw = inl InvalidEvent ->
  events_loop (raw :: rest) s =
    events_loop rest
      (add_trace s [Logged (LogEvaluatingEvent raw);
                    Logged LogAbortingEvent]).
Proof.
  intros Hinit. simpl. rewrite Hinit. unfold bind, log, emit.
  now rewrite add_trace_app.
Qed.

Lemma events_loop_raises (raw : pyval) (rest : list pyval) (x : pyexc)
    (s : evaluator) :
  Event.__init__ raw = inl (Raised x) ->
  events_loop (raw :: rest) s =
    (inl (Raised x), add_trace s [Logged (LogEvaluatingEvent raw)]).
Proof. intros Hinit. simpl. now rewrite Hinit. Qed.

(** C4.  A raw event that is empty or absent (falsy), or a dictionary
    without a (truthy) ['event_type'], or one without a (truthy)
    ['message_id'], is refused by the constructor with [InvalidEvent];
    [evaluate_events]'s loop logs that it drops it and goes on with the
    next event: no alarms are looked up for it and none is evaluated. *)
Theorem invalid_event_is_dropped (raw : pyval) :
  truthy raw = false \/ lacks raw "event_type" \/ lacks raw "message_id" ->
  Event.__init__ raw = inl InvalidEvent /\
  forall (rest : list pyval) (s : evaluator),
    events_loop (raw :: rest) s =
      events_loop rest
        (add_trace s [Logged (LogEvaluatingEvent raw);
                      Logged LogAbortingEvent]).
Proof.
  intros Hraw.
  assert (Hinit : Event.__init__ raw = inl InvalidEvent).
  { unfold Event.__init__. now rewrite (validate_rejects raw Hraw). }
  split; [exact Hinit|].
  intros rest s. now apply events_loop_invalid.
Qed.

(** *** Traits that cannot be converted *)

Lemma parse_traits_loop_app (pre post : list pyval)
    (acc acc' : dict pyval pyval * pyval) :
  Event.parse_traits_loop pre acc = inr acc' ->
  Event.parse_traits_loop (pre ++ post) acc =
    Event.parse_traits_loop post acc'.
Proof.
  revert acc. induction pre as [|t pre IH]; intros acc; simpl.
  - now intros [= ->].
  - destruct (Event.parse_trait t acc) as [x | acc1]; [discriminate|].
    apply IH.
Qed.

Lemma parse_trait_fails (t k ty v : pyval) (x : pyexc)
    (acc : dict pyval pyval * pyval) :
  py_index t Event.TRAIT_FIELD = inr k ->
  py_index t Event.TRAIT_VALUE = inr v ->
  py_index t Event.TRAIT_TYPE = inr ty ->
  _sanitize_trait_value v ty = inl x ->
  Event.parse_trait t acc = inl x.
Proof.
  intros Hk Hv Hty Hx. unfold Event.parse_trait. destruct acc.
  now rewrite Hk, Hv, Hty, Hx.
Qed.

(** C3, as the code has it.  A raw event that passes validation and has
    a trait whose value fails type normalization (the traits before it
    being converted) does not make an [Event]: the constructor raises
    the exception of the failed conversion, which is not
    [InvalidEvent].  [evaluate_events]'s loop does not catch it: the
    exception leaves the loop, and the events after this one are not
    processed. *)
Theorem malformed_trait_aborts_batch (raw : pyval)
    (d : list (string * pyval)) (pre post : list pyval)
    (t k ty v : pyval) (acc : dict pyval pyval * pyval) (x : pyexc) :
  raw = PDict d ->
  Event._validate raw = inr tt ->
  dict_get String.eqb d "traits" = Some (PList (pre ++ t :: post)) ->
  Event.parse_traits_loop pre ([], PStr "") = inr acc ->
  py_index t Event.TRAIT_FIELD = inr k ->
  py_index t Event.TRAIT_VALUE = inr v ->
  py_index t Event.TRAIT_TYPE = inr ty ->
  _sanitize_trait_value v ty = inl x ->
  Event.__init__ raw = inl (Raised x) /\
  Event.__init__ raw <> inl InvalidEvent /\
  forall (rest : list pyval) (s : evaluator),
    events_loop (raw :: rest) s =
      (inl (Raised x), add_trace s [Logged (LogEvaluatingEvent raw)]).
Proof.
  intros -> Hval Htr Hpre Hk Hv Hty Hx.
  assert (Hinit : Event.__init__ (PDict d) = inl (Raised x)).
  { unfold Event.__init__. rewrite Hval.
    unfold Event._parse_traits. simpl. rewrite Htr. simpl.
    rewrite (parse_traits_loop_app pre (t :: post) _ _ Hpre). simpl.
    now rewrite (parse_trait_fails t k ty v x acc Hk Hv Hty Hx). }
  split; [exact Hinit|]. split; [rewrite Hinit; discriminate|].
  intros rest s. now apply events_loop_raises.
Qed.

(** *** The project of an event *)

Lemma sanitize_hashable (v ty r : pyval) :
  _sanitize_trait_value v ty = inr r -> hashable r = true.
Proof.
  unfold _sanitize_trait_value.
  destruct (_ || _).
  - destruct (py_int v); [discriminate | now intros [= <-]].
  - destruct (_ || _).
    + destruct (py_float v); [discriminate | now intros [= <-]].
    + destruct (_ || _).
      * destruct (py_isotime v); [discriminate | now intros [= <-]].
      * now intros [= <-].
Qed.

Lemma parse_trait_hashable (t : pyval)
    (acc acc' : dict pyval pyval * pyval) :
  hashable (snd acc) = true ->
  Event.parse_trait t acc = inr acc' ->
  hashable (snd acc') = true.
Proof.
  unfold Event.parse_trait. destruct acc as [traits project]. simpl.
  intros Hacc.
  destruct (py_index t Event.TRAIT_FIELD) as [|k]; [discriminate|].
  destruct (py_index t Event.TRAIT_VALUE) as [|raw]; [discriminate|].
  destruct (py_index t Event.TRAIT_TYPE) as [|ty]; [discriminate|].
  destruct (_sanitize_trait_value raw ty) as [|v] eqn:Ev; [discriminate|].
  destruct (hashable k); [|discriminate].
  intros [= <-]. simpl.
  destruct (_ || _); [now apply sanitize_hashable in Ev | exact Hacc].
Qed.

Lemma parse_traits_loop_hashable (ts : list pyval)
    (acc acc' : dict pyval pyval * pyval) :
  hashable (snd acc) = true ->
  Event.parse_traits_loop ts acc = inr acc' ->
  hashable (snd acc') = true.
Proof.
  revert acc. induction ts as [|t ts IH]; intros acc Hacc; simpl.
  - now intros [= <-].
  - destruct (Event.parse_trait t acc) as [|acc1] eqn:E; [discriminate|].
    apply IH. now apply (parse_trait_hashable t acc).
Qed.

(** The project of an event is the empty string or a converted trait
    value: it can be a dictionary key. *)
Lemma event_project_hashable (e : pyval) (event : Event) :
  Event.__init__ e = inr event -> hashable (project event) = true.
Proof.
  unfold Event.__init__, Event._parse_traits.
  destruct (Event._validate e) as [|[]]; [discriminate|].
  destruct (py_get e "message_id" PNone) as [|mid]; [discriminate|].
  destruct (py_get e "traits" (PList [])) as [|tv]; [discriminate|].
  destruct (py_iter tv) as [|ts]; [discriminate|].
  destruct (Event.parse_traits_loop ts ([], PStr "")) as [|[traits p]] eqn:E;
    [discriminate|].
  intros [= <-]. simpl.
  now apply (parse_traits_loop_hashable ts ([], PStr "") (traits, p)).
Qed.

(** *** Storage failures *)

Lemma events_loop_app (l1 l2 : list pyval) (s0 s : evaluator) :
  events_loop l1 s0 = (inr tt, s) ->
  events_loop (l1 ++ l2) s0 = events_loop l2 s.
Proof.
  revert s0. induction l1 as [|e l1 IH]; intros s0.
  - simpl. now intros [= ->].
  - simpl. unfold bind, log, emit. simpl.
    destruct (Event.__init__ e) as [[|x] | event].
    + apply IH.
    + discriminate.
    + destruct (_get_project_alarms _ _) as [[x | items] s1];
        [discriminate|].
      destruct (alarms_loop e event items s1) as [[x | []] s2];
        [discriminate|].
      apply IH.
Qed.

Lemma events_loop_storage_failure (e : pyval) (event : Event)
    (rest : list pyval) (x : exn) (s s1 : evaluator) :
  Event.__init__ e = inr event ->
  _get_project_alarms (project event)
    (add_trace s [Logged (LogEvaluatingEvent e)]) = (inl x, s1) ->
  events_loop (e :: rest) s = (inl x, s1).
Proof.
  intros Hev Hget. simpl. unfold bind at 1, log at 1, emit.
  rewrite Hev. unfold bind. now rewrite Hget.
Qed.

(** *** [_get_project_alarms], case by case *)

Lemma fetch_after_miss (project : pyval) (s s' : evaluator) :
  cached_alarms project s = (inr None, s') ->
  _get_project_alarms project s = fetch_and_store project s'.
Proof.
  intros Hmiss. unfold _get_project_alarms, bind at 1. rewrite Hmiss.
  unfold fetch_and_store, storage_get_alarms, timeutils_utcnow, bind,
    conf_event_alarm_cache_ttl, get_caches, put_caches, emit, call, ret.
  simpl.
  destruct (get_alarms project (env s')) as [[x | fetched] w]; simpl;
    [reflexivity|].
  destruct (event_alarm_cache_ttl s' =? 0); simpl; [reflexivity|].
  destruct (utcnow w) as [now w']. reflexivity.
Qed.

Lemma cached_alarms_miss (project : pyval) (s : evaluator) :
  event_alarm_cache_ttl s = 0 \/
  (hashable project = true /\
   dict_get py_eq (caches s) project = None) ->
  cached_alarms project s = (inr None, s).
Proof.
  unfold cached_alarms, has_key, bind, conf_event_alarm_cache_ttl,
    get_caches, ret.
  simpl. intros [-> | [Hh Hn]]; [reflexivity|].
  destruct (negb (event_alarm_cache_ttl s =? 0)); [|reflexivity].
  rewrite Hh. unfold dict_mem. now rewrite Hn.
Qed.

Lemma cached_alarms_unhashable (project : pyval) (s : evaluator) :
  event_alarm_cache_ttl s <> 0 ->
  hashable project = false ->
  cached_alarms project s = (inl (Raised TypeError), s).
Proof.
  intros Httl Hh.
  unfold cached_alarms, has_key, bind, conf_event_alarm_cache_ttl,
    get_caches, ret.
  simpl. apply Z.eqb_neq in Httl. now rewrite Httl, Hh.
Qed.

Lemma get_project_alarms_miss (project : pyval) (s : evaluator) :
  event_alarm_cache_ttl s = 0 \/
  (hashable project = true /\
   dict_get py_eq (caches s) project = None) ->
  _get_project_alarms project s = fetch_and_store project s.
Proof.
  intros Hmiss. now apply fetch_after_miss, cached_alarms_miss.
Qed.

(** The seconds a [timedelta] can hold. *)
Lemma timedelta_ok_range (seconds : Z) :
  timedelta_ok seconds = true <->
  -86399999913600 <= seconds <= 86399999999999.
Proof.
  unfold timedelta_ok. rewrite andb_true_iff, !Z.leb_le.
  pose proof (Z.div_mod seconds 86400 ltac:(lia)) as Hd.
  pose proof (Z.mod_pos_bound seconds 86400 ltac:(lia)) as Hm.
  lia.
Qed.

Lemma timedelta_ok_small (seconds : Z) :
  0 <= seconds <= 86399999999999 -> timedelta_ok seconds = true.
Proof. intros Hs. apply timedelta_ok_range. lia. Qed.

Lemma timedelta_ok_large (seconds : Z) :
  seconds > 86399999999999 -> timedelta_ok seconds = false.
Proof.
  intros Hs. destruct (timedelta_ok seconds) eqn:E; [|reflexivity].
  apply timedelta_ok_range in E. lia.
Qed.

Section CachedEntry.
Variables (project : pyval) (entry : cache_entry) (s : evaluator).
Variables (now : Z) (w : world).
Hypothesis Httl : event_alarm_cache_ttl s <> 0.
Hypothesis Hhash : hashable project = true.
Hypothesis Hentry : dict_get py_eq (caches s) project = Some entry.
Hypothesis Hnow : utcnow (env s) = (now, w).

(** A TTL that no [timedelta] can hold: the clock is read and the
    comparison raises. *)
Lemma cached_alarms_overflow :
  timedelta_ok (event_alarm_cache_ttl s) = false ->
  cached_alarms project s = (inl (Raised OverflowError), with_env s w).
Proof.
  intros Hbad.
  unfold cached_alarms, has_key, timeutils_is_older_than, timeutils_utcnow,
    bind, conf_event_alarm_cache_ttl, get_caches, call, ret, raise.
  simpl. unfold dict_mem. rewrite Hhash, Hentry.
  apply Z.eqb_neq in Httl. rewrite Httl. simpl.
  rewrite Hnow. simpl. now rewrite Hbad.
Qed.

Lemma get_project_alarms_overflow :
  timedelta_ok (event_alarm_cache_ttl s) = false ->
  _get_project_alarms project s =
    (inl (Raised OverflowError), with_env s w).
Proof.
  intros Hbad. unfold _get_project_alarms, bind.
  now rewrite (cached_alarms_overflow Hbad).
Qed.

Hypothesis Hok : timedelta_ok (event_alarm_cache_ttl s) = true.

Lemma cached_alarms_young :
  (event_alarm_cache_ttl s * 1000000 <? now - updated entry) = false ->
  cached_alarms project s = (inr (Some (alarms entry)), with_env s w).
Proof.
  intros Hyoung.
  unfold cached_alarms, has_key, timeutils_is_older_than, timeutils_utcnow,
    bind, conf_event_alarm_cache_ttl, get_caches, call, ret.
  simpl. unfold dict_mem. rewrite Hhash, Hentry.
  apply Z.eqb_neq in Httl. rewrite Httl. simpl.
  rewrite Hnow. simpl. now rewrite Hok, Hyoung.
Qed.

Lemma cached_alarms_old :
  (event_alarm_cache_ttl s * 1000000 <? now - updated entry) = true ->
  cached_alarms project s =
    (inr None,
     with_caches (with_env s w) (dict_del py_eq (caches s) project)).
Proof.
  intros Hold.
  unfold cached_alarms, has_key, timeutils_is_older_than, timeutils_utcnow,
    bind, conf_event_alarm_cache_ttl, get_caches, put_caches, call, ret.
  simpl. unfold dict_mem. rewrite Hhash, Hentry.
  apply Z.eqb_neq in Httl. rewrite Httl. simpl.
  rewrite Hnow. simpl. now rewrite Hok, Hold.
Qed.

Lemma get_project_alarms_hit :
  (event_alarm_cache_ttl s * 1000000 <? now - updated entry) = false ->
  _get_project_alarms project s = (inr (alarms entry), with_env s w).
Proof.
  intros Hyoung. unfold _get_project_alarms, bind.
  now rewrite (cached_alarms_young Hyoung).
Qed.

Lemma get_project_alarms_stale :
  (event_alarm_cache_ttl s * 1000000 <? now - updated entry) = true ->
  _get_project_alarms project s =
    fetch_and_store project
      (with_caches (with_env s w) (dict_del py_eq (caches s) project)).
Proof.
  intros Hold. now apply fetch_after_miss, cached_alarms_old.
Qed.
End CachedEntry.

Lemma fetch_and_store_fetches (project : pyval) (s : evaluator) :
  fetches (trace (snd (fetch_and_store project s))) =
    fetches (trace s) ++ [project].
Proof.
  unfold fetch_and_store.
  destruct (get_alarms project (env s)) as [[x | fetched] w]; simpl.
  - now rewrite fetches_app.
  - destruct (event_alarm_cache_ttl s =? 0); simpl;
      [now rewrite fetches_app|].
    destruct (utcnow w) as [now w']; simpl. now rewrite fetches_app.
Qed.

Lemma fetch_and_store_raises (project : pyval) (s s1 : evaluator)
    (x : exn) :
  fetch_and_store project s = (inl x, s1) ->
  exists err w,
    x = Raised err /\ get_alarms project (env s) = (inl err, w).
Proof.
  unfold fetch_and_store.
  destruct (get_alarms project (env s)) as [[err | fetched] w]; simpl.
  - intros [= <- _]. now exists err, w.
  - destruct (event_alarm_cache_ttl s =? 0); [discriminate|].
    now destruct (utcnow w).
Qed.

(** For a project that can be a key, [_get_project_alarms] raises what
    the storage raised, or [OverflowError] for a TTL that no [timedelta]
    can hold. *)
Lemma get_project_alarms_raises (project : pyval) (s s1 : evaluator)
    (x : exn) :
  hashable project = true ->
  _get_project_alarms project s = (inl x, s1) ->
  (exists err w w',
     x = Raised err /\ get_alarms project w = (inl err, w')) \/
  (x = Raised OverflowError /\
   timedelta_ok (event_alarm_cache_ttl s) = false).
Proof.
  intros Hh.
  destruct (Z.eq_dec (event_alarm_cache_ttl s) 0) as [Hz | Hnz].
  - rewrite get_project_alarms_miss by now left.
    intros Hf. apply fetch_and_store_raises in Hf as (err & w & ? & ?).
    left. now exists err, (env s), w.
  - destruct (dict_get py_eq (caches s) project) as [entry|] eqn:Hentry.
    + destruct (utcnow (env s)) as [now w] eqn:Hnow.
      destruct (timedelta_ok (event_alarm_cache_ttl s)) eqn:Hok.
      * destruct (event_alarm_cache_ttl s * 1000000 <? now - updated entry)
          eqn:Hage.
        -- rewrite (get_project_alarms_stale project entry s now w
                      Hnz Hh Hentry Hnow Hok Hage).
           intros Hf.
           apply fetch_and_store_raises in Hf as (err & w1 & ? & ?).
           simpl in *. left. now exists err, w, w1.
        -- rewrite (get_project_alarms_hit project entry s now w
                      Hnz Hh Hentry Hnow Hok Hage).
           discriminate.
      * rewrite (get_project_alarms_overflow project entry s now w
                   Hnz Hh Hentry Hnow Hok).
        intros [= <- _]. now right.
    + rewrite get_project_alarms_miss by (right; now split).
      intros Hf. apply fetch_and_store_raises in Hf as (err & w & ? & ?).
      left. now exists err, (env s), w.
Qed.

Lemma fetch_and_store_fails (project : pyval) (s : evaluator)
    (err : pyexc) (w : world) :
  get_alarms project (env s) = (inl err, w) ->
  fetch_and_store project s =
    (inl (Raised err), with_env (add_trace s [GetAlarms project]) w).
Proof. intros Hget. unfold fetch_and_store. now rewrite Hget. Qed.

(** A lookup that goes to the storage is the fetch, from an evaluator
    that differs from the one it started on by the clock reading and the
    stale entry at most. *)
Lemma get_project_alarms_reaches (project : pyval) (s : evaluator)
    (w0 : world) :
  hashable project = true ->
  reaches_storage project s w0 ->
  exists s',
    _get_project_alarms project s = fetch_and_store project s' /\
    env s' = w0 /\ trace s' = trace s.
Proof.
  intros Hh [[Hz ->] | [[Hn ->] | (entry & t0 & Hnz & Hok & He & Ht0 & Hold)]].
  - exists s. now rewrite get_project_alarms_miss by now left.
  - exists s. now rewrite get_project_alarms_miss by (right; now split).
  - eexists.
    rewrite (get_project_alarms_stale project entry s t0 w0
               Hnz Hh He Ht0 Hok) by (apply Z.ltb_lt; lia).
    now repeat split.
Qed.

(** C2, as the code has it.  When the lookup of the alarms of an event's
    project goes to the storage and [get_alarms] raises, nothing catches
    the exception: it leaves the loop over the events at this event,
    after the record of the event and the fetch and nothing else, so
    that the events before it have been evaluated and the events after
    it are not, and it leaves [evaluate_events]. *)
Theorem storage_failure_aborts_batch (e : pyval) (event : Event)
    (rest : list pyval) (err : pyexc) (s : evaluator) (w0 w1 : world) :
  Event.__init__ e = inr event ->
  reaches_storage (project event) s w0 ->
  get_alarms (project event) w0 = (inl err, w1) ->
  exists s1,
    events_loop (e :: rest) s = (inl (Raised err), s1) /\
    trace s1 =
      trace s ++
      [Logged (LogEvaluatingEvent e); GetAlarms (project event)] /\
    env s1 = w1 /\
    forall (pre : list pyval) (s0 : evaluator),
      events_loop pre
        (add_trace s0
           [Logged (LogStarting (List.length (pre ++ e :: rest)))])
        = (inr tt, s) ->
      evaluate_events (PList (pre ++ e :: rest)) s0 =
        (inl (Raised err), s1).
Proof.
  intros Hev Hreach Hget.
  destruct (get_project_alarms_reaches (project event)
              (add_trace s [Logged (LogEvaluatingEvent e)]) w0)
    as (s' & Hlookup & Henv & Htrace).
  { now apply (event_project_hashable e). }
  { exact Hreach. }
  rewrite <- Henv in Hget.
  rewrite (fetch_and_store_fails _ s' err w1 Hget) in Hlookup.
  pose proof (events_loop_storage_failure e event rest _ s _ Hev Hlookup)
    as Hloop.
  eexists. split; [exact Hloop|]. simpl. rewrite Htrace. simpl.
  split; [now rewrite <- app_assoc|]. split; [reflexivity|].
  intros pre s0 Hpre. unfold evaluate_events, bind, log, emit.
  now rewrite (events_loop_app pre (e :: rest) _ s Hpre), Hloop.
Qed.

(** *** The cache *)

Lemma dict_get_set_same {K V : Type} (eqb : K -> K -> bool)
    (d : dict K V) (k : K) (v : V) :
  eqb k k = true -> dict_get eqb (dict_set eqb d k v) k = Some v.
Proof.
  intros Hk. induction d as [|[k' v'] d IH]; simpl.
  - now rewrite Hk.
  - destruct (eqb k' k) eqn:E; simpl; now rewrite E.
Qed.

Lemma fetch_and_store_stores (project : pyval) (s : evaluator)
    (fetched : list Alarm) (w w' : world) (now : Z) :
  event_alarm_cache_ttl s <> 0 ->
  get_alarms project (env s) = (inr fetched, w) ->
  utcnow w = (now, w') ->
  fetch_and_store project s =
    (inr (by_alarm_id fetched),
     with_caches (with_env (add_trace s [GetAlarms project]) w')
       (dict_set py_eq (caches s) project
          {| alarms := by_alarm_id fetched; updated := now |})).
Proof.
  intros Httl Hget Hnow. unfold fetch_and_store.
  rewrite Hget. apply Z.eqb_neq in Httl. rewrite Httl, Hnow. reflexivity.
Qed.


(** C8, as the code has it.  With a positive TTL and an entry for the
    project (a value a dictionary can have as a key), a call of
    [_get_project_alarms] reads the clock.  For a TTL that a [timedelta]
    can hold (at most 86399999999999 seconds) it discards the entry and
    asks the storage afresh exactly when the entry is older than the
    TTL, [now - updated > TTL]; an entry of age up to and including the
    TTL is served from the cache, with no storage call.  For a larger
    TTL the comparison raises [OverflowError]: the entry is neither
    served nor discarded. *)
Theorem cache_entry_expires_when_older (project : pyval)
    (entry : cache_entry) (s : evaluator) (now : Z) (w : world) :
  event_alarm_cache_ttl s > 0 ->
  hashable project = true ->
  dict_get py_eq (caches s) project = Some entry ->
  utcnow (env s) = (now, w) ->
  let r := _get_project_alarms project s in
  (event_alarm_cache_ttl s <= 86399999999999 ->
   (now - updated entry > event_alarm_cache_ttl s * 1000000 ->
      r = fetch_and_store project
            (with_caches (with_env s w)
               (dict_del py_eq (caches s) project)) /\
      fetches (trace (snd r)) = fetches (trace s) ++ [project]) /\
   (now - updated entry <= event_alarm_cache_ttl s * 1000000 ->
      r = (inr (alarms entry), with_env s w) /\
      fetches (trace (snd r)) = fetches (trace s))) /\
  (event_alarm_cache_ttl s > 86399999999999 ->
   r = (inl (Raised OverflowError), with_env s w)).
Proof.
  intros Hpos Hh Hentry Hnow r.
  assert (Httl : event_alarm_cache_ttl s <> 0) by lia.
  split.
  - intros Hmax.
    assert (Hok : timedelta_ok (event_alarm_cache_ttl s) = true)
      by (apply timedelta_ok_small; lia).
    split; intros Hage; subst r.
    + rewrite (get_project_alarms_stale project entry s now w
                 Httl Hh Hentry Hnow Hok) by (apply Z.ltb_lt; lia).
      split; [reflexivity|]. now rewrite fetch_and_store_fetches.
    + rewrite (get_project_alarms_hit project entry s now w
                 Httl Hh Hentry Hnow Hok) by (apply Z.ltb_ge; lia).
      split; reflexivity.
  - intros Hbig. subst r.
    apply (get_project_alarms_overflow project entry s now w
             Httl Hh Hentry Hnow).
    now apply timedelta_ok_large.
Qed.

(** *** The pattern reader has fuel enough *)

Lemma find_close_shorter (l body after : list ascii) :
  find_close l = Some (body, after) ->
  (List.length after < List.length l)%nat.
Proof.
  revert body. induction l as [|c l IH]; intros body; simpl; [discriminate|].
  destruct (c =? "]")%char.
  - intros [= _ <-]. lia.
  - destruct (find_close l) as [[body' after']|]; [|discriminate].
    intros [= _ <-]. specialize (IH body' eq_refl). lia.
Qed.

Lemma parse_class_shorter (p : list ascii) (neg : bool)
    (body after : list ascii) :
  parse_class p = Some (neg, body, after) ->
  (List.length after < List.length p)%nat.
Proof.
  unfold parse_class.
  set (a := match p with
            | c :: r => if (c =? "!")%char then (true, r) else (false, p)
            | [] => (false, p)
            end).
  assert (Ha : (List.length (snd a) <= List.length p)%nat).
  { subst a. destruct p as [|c r]; simpl; [lia|].
    destruct (c =? "!")%char; simpl; lia. }
  destruct a as [neg1 r1]. simpl in Ha.
  set (b := match r1 with
            | c :: r => if (c =? "]")%char then ([c], r) else ([], r1)
            | [] => ([], r1)
            end).
  assert (Hb : (List.length (snd b) <= List.length r1)%nat).
  { subst b. destruct r1 as [|c r]; simpl; [lia|].
    destruct (c =? "]")%char; simpl; lia. }
  destruct b as [first r2]. simpl in Hb.
  destruct (find_close r2) as [[body' after']|] eqn:E; [|discriminate].
  intros [= _ _ <-]. apply find_close_shorter in E. lia.
Qed.

(** Any fuel from the length of the pattern on gives the same tokens. *)
Lemma translate_fuel (n m : nat) (pat : list ascii) :
  (List.length pat <= n)%nat -> (List.length pat <= m)%nat ->
  translate n pat = translate m pat.
Proof.
  revert m pat. induction n as [|n IH]; intros m pat Hn Hm.
  - destruct pat; [|simpl in Hn; lia]. now destruct m.
  - destruct pat as [|c p]; [now destruct m|].
    destruct m as [|m]; [simpl in Hm; lia|].
    simpl in Hn, Hm. simpl.
    destruct (c =? "*")%char; [f_equal; apply IH; lia|].
    destruct (c =? "?")%char; [f_equal; apply IH; lia|].
    destruct (c =? "[")%char; [|f_equal; apply IH; lia].
    destruct (parse_class p) as [[[neg body] after]|] eqn:E;
      [|f_equal; apply IH; lia].
    apply parse_class_shorter in E. f_equal. apply IH; lia.
Qed.

(** ** Traits of a constructed event *)

Lemma py_eq_str_r (k : pyval) (n : string) :
  py_eq k (PStr n) = true -> k = PStr n.
Proof.
  destruct k; simpl; try discriminate.
  intros E. apply String.eqb_eq in E. now subst.
Qed.

Lemma py_eq_str_l (k : pyval) (n : string) :
  py_eq (PStr n) k = true -> k = PStr n.
Proof.
  destruct k; simpl; try discriminate.
  intros E. apply String.eqb_eq in E. now subst.
Qed.

Lemma py_eq_str_refl (n : string) : py_eq (PStr n) (PStr n) = true.
Proof. simpl. apply String.eqb_refl. Qed.

Lemma traits_set_other (d : dict pyval pyval) (k v : pyval) (n : string) :
  py_eq k (PStr n) = false ->
  dict_get py_eq (dict_set py_eq d k v) (PStr n) = dict_get py_eq d (PStr n).
Proof.
  intros Hk. induction d as [|[k' v'] d IH]; simpl.
  - now rewrite Hk.
  - destruct (py_eq k' k) eqn:E; simpl.
    + destruct (py_eq k' (PStr n)) eqn:E'; [|reflexivity].
      apply py_eq_str_r in E'. subst k'. apply py_eq_str_l in E. subst k.
      now rewrite py_eq_str_refl in Hk.
    + now rewrite IH.
Qed.

Lemma traits_set_same (d : dict pyval pyval) (k v : pyval) (n : string) :
  py_eq k (PStr n) = true ->
  dict_get py_eq (dict_set py_eq d k v) (PStr n) = Some v.
Proof.
  intros Hk. apply py_eq_str_r in Hk. subst k.
  apply dict_get_set_same, py_eq_str_refl.
Qed.

(** One round of the loop of [_parse_traits], seen from the name [n]. *)
Lemma parse_trait_named (n : string) (t : pyval)
    (acc acc' : dict pyval pyval * pyval) :
  Event.parse_trait t acc = inr acc' ->
  if named n t then
    exists rv ty v,
      py_index t Event.TRAIT_VALUE = inr rv /\
      py_index t Event.TRAIT_TYPE = inr ty /\
      _sanitize_trait_value rv ty = inr v /\
      dict_get py_eq (fst acc') (PStr n) = Some v
  else
    dict_get py_eq (fst acc') (PStr n) = dict_get py_eq (fst acc) (PStr n).
Proof.
  unfold Event.parse_trait, named. destruct acc as [traits project].
  destruct (py_index t Event.TRAIT_FIELD) as [|k]; [discriminate|].
  destruct (py_index t Event.TRAIT_VALUE) as [|rv]; [discriminate|].
  destruct (py_index t Event.TRAIT_TYPE) as [|ty]; [discriminate|].
  destruct (_sanitize_trait_value rv ty) as [|v] eqn:Ev; [discriminate|].
  destruct (hashable k); [|discriminate].
  intros [= <-]. simpl.
  destruct (py_eq k (PStr n)) eqn:Ek.
  - exists rv, ty, v. split; [reflexivity|]. split; [reflexivity|].
    split; [exact Ev|]. now apply traits_set_same.
  - now apply traits_set_other.
Qed.

Lemma parse_traits_loop_unnamed (n : string) (ts : list pyval)
    (acc acc' : dict pyval pyval * pyval) :
  forallb (fun t => negb (named n t)) ts = true ->
  Event.parse_traits_loop ts acc = inr acc' ->
  dict_get py_eq (fst acc') (PStr n) = dict_get py_eq (fst acc) (PStr n).
Proof.
  revert acc. induction ts as [|t ts IH]; intros acc; simpl.
  - now intros _ [= <-].
  - intros Hall. apply andb_prop in Hall as [Ht Hts].
    destruct (Event.parse_trait t acc) as [|acc1] eqn:E; [discriminate|].
    intros Hloop. rewrite (IH acc1 Hts Hloop).
    pose proof (parse_trait_named n t acc acc1 E) as Hn.
    apply negb_true_iff in Ht. now rewrite Ht in Hn.
Qed.

Lemma parse_traits_loop_named (n : string) (pre post : list pyval)
    (t : pyval) (acc acc' : dict pyval pyval * pyval) :
  named n t = true ->
  forallb (fun t => negb (named n t)) post = true ->
  Event.parse_traits_loop (pre ++ t :: post) acc = inr acc' ->
  exists rv ty v,
    py_index t Event.TRAIT_VALUE = inr rv /\
    py_index t Event.TRAIT_TYPE = inr ty /\
    _sanitize_trait_value rv ty = inr v /\
    dict_get py_eq (fst acc') (PStr n) = Some v.
Proof.
  intros Ht Hpost. revert acc. induction pre as [|t0 pre IH]; intros acc; simpl.
  - destruct (Event.parse_trait t acc) as [|acc1] eqn:E; [discriminate|].
    intros Hloop.
    pose proof (parse_trait_named n t acc acc1 E) as Hn. rewrite Ht in Hn.
    destruct Hn as (rv & ty & v & Hrv & Hty & Hv & Hget).
    exists rv, ty, v. repeat split; try assumption.
    now rewrite (parse_traits_loop_unnamed n post acc1 acc' Hpost Hloop).
  - destruct (Event.parse_trait t0 acc) as [|acc1]; [discriminate|].
    apply IH.
Qed.

(** What the constructor made of a raw event. *)
Lemma init_parts (raw : pyval) (event : Event) :
  Event.__init__ raw = inr event ->
  exists tv ts,
    py_get raw "traits" (PList []) = inr tv /\
    py_iter tv = inr ts /\
    Event.parse_traits_loop ts ([], PStr "") =
      inr (traits event, project event) /\
    obj event = raw.
Proof.
  unfold Event.__init__, Event._parse_traits.
  destruct (Event._validate raw) as [|[]]; [discriminate|].
  destruct (py_get raw "message_id" PNone) as [|mid]; [discriminate|].
  destruct (py_get raw "traits" (PList [])) as [|tv]; [discriminate|].
  destruct (py_iter tv) as [|ts] eqn:Ets; [discriminate|].
  destruct (Event.parse_traits_loop ts ([], PStr "")) as [|[tr p]] eqn:E;
    [discriminate|].
  intros [= <-]. exists tv, ts. simpl. repeat split; auto.
Qed.

Lemma get_value_trait (event : Event) (n : string) :
  Event.get_value event ("traits." ++ n) =
    match dict_get py_eq (traits event) (PStr n) with
    | Some v => v
    | None => PNone
    end.
Proof.
  unfold Event.get_value. simpl.
  replace (prefix "" n) with true by now destruct n.
  reflexivity.
Qed.

(** X1.  On an event the constructor has built, [get_value] of
    ['traits.' + name] is the converted value of the last trait item of
    that name, and [None] when no item has the name.  The name is all
    that follows the first dot, dots included. *)
Theorem trait_lookup_last_wins (raw : pyval) (event : Event)
    (tv : pyval) (ts : list pyval) (n : string) :
  Event.__init__ raw = inr event ->
  py_get raw "traits" (PList []) = inr tv ->
  py_iter tv = inr ts ->
  (forallb (fun t => negb (named n t)) ts = true ->
   Event.get_value event ("traits." ++ n) = PNone) /\
  (forall pre t post,
     ts = pre ++ t :: post ->
     named n t = true ->
     forallb (fun t => negb (named n t)) post = true ->
     exists rv ty,
       py_index t Event.TRAIT_VALUE = inr rv /\
       py_index t Event.TRAIT_TYPE = inr ty /\
       _sanitize_trait_value rv ty =
         inr (Event.get_value event ("traits." ++ n))).
Proof.
  intros Hinit Htv Hts.
  destruct (init_parts raw event Hinit)
    as (tv' & ts' & Htv' & Hts' & Hloop & _).
  rewrite Htv in Htv'. injection Htv' as <-.
  rewrite Hts in Hts'. injection Hts' as <-.
  rewrite get_value_trait. split.
  - intros Hnone.
    pose proof (parse_traits_loop_unnamed n ts _ _ Hnone Hloop) as Hget.
    simpl in Hget. now rewrite Hget.
  - intros pre t post -> Ht Hpost.
    destruct (parse_traits_loop_named n pre post t _ _ Ht Hpost Hloop)
      as (rv & ty & v & Hrv & Hty & Hv & Hget).
    simpl in Hget. rewrite Hget. now exists rv, ty.
Qed.

(** ** The project of a constructed event *)

Lemma parse_trait_project (t : pyval)
    (acc acc' : dict pyval pyval * pyval) :
  Event.parse_trait t acc = inr acc' ->
  if names_project t then
    exists rv ty,
      py_index t Event.TRAIT_VALUE = inr rv /\
      py_index t Event.TRAIT_TYPE = inr ty /\
      _sanitize_trait_value rv ty = inr (snd acc')
  else snd acc' = snd acc.
Proof.
  unfold Event.parse_trait, names_project, named.
  destruct acc as [traits project].
  destruct (py_index t Event.TRAIT_FIELD) as [|k]; [discriminate|].
  destruct (py_index t Event.TRAIT_VALUE) as [|rv]; [discriminate|].
  destruct (py_index t Event.TRAIT_TYPE) as [|ty]; [discriminate|].
  destruct (_sanitize_trait_value rv ty) as [|v] eqn:Ev; [discriminate|].
  destruct (hashable k); [|discriminate].
  intros [= <-]. simpl.
  destruct (_ || _); [|reflexivity].
  now exists rv, ty.
Qed.

Lemma parse_traits_loop_no_project (ts : list pyval)
    (acc acc' : dict pyval pyval * pyval) :
  forallb (fun t => negb (names_project t)) ts = true ->
  Event.parse_traits_loop ts acc = inr acc' ->
  snd acc' = snd acc.
Proof.
  revert acc. induction ts as [|t ts IH]; intros acc; simpl.
  - now intros _ [= <-].
  - intros Hall. apply andb_prop in Hall as [Ht Hts].
    destruct (Event.parse_trait t acc) as [|acc1] eqn:E; [discriminate|].
    intros Hloop. rewrite (IH acc1 Hts Hloop).
    pose proof (parse_trait_project t acc acc1 E) as Hp.
    apply negb_true_iff in Ht. now rewrite Ht in Hp.
Qed.

Lemma parse_traits_loop_project (pre post : list pyval) (t : pyval)
    (acc acc' : dict pyval pyval * pyval) :
  names_project t = true ->
  forallb (fun t => negb (names_project t)) post = true ->
  Event.parse_traits_loop (pre ++ t :: post) acc = inr acc' ->
  exists rv ty,
    py_index t Event.TRAIT_VALUE = inr rv /\
    py_index t Event.TRAIT_TYPE = inr ty /\
    _sanitize_trait_value rv ty = inr (snd acc').
Proof.
  intros Ht Hpost. revert acc. induction pre as [|t0 pre IH]; intros acc; simpl.
  - destruct (Event.parse_trait t acc) as [|acc1] eqn:E; [discriminate|].
    intros Hloop.
    pose proof (parse_trait_project t acc acc1 E) as Hp. rewrite Ht in Hp.
    now rewrite (parse_traits_loop_no_project post acc1 acc' Hpost Hloop).
  - destruct (Event.parse_trait t0 acc) as [|acc1]; [discriminate|].
    apply IH.
Qed.

(** X2.  The project of an event the constructor has built is the
    converted value of the last trait item named ['tenant_id'] or
    ['project_id'], whichever of the two names it has, and the empty
    string when no item has either name. *)
Theorem project_is_last_tenant_trait (raw : pyval) (event : Event)
    (tv : pyval) (ts : list pyval) :
  Event.__init__ raw = inr event ->
  py_get raw "traits" (PList []) = inr tv ->
  py_iter tv = inr ts ->
  (forallb (fun t => negb (names_project t)) ts = true ->
   project event = PStr "") /\
  (forall pre t post,
     ts = pre ++ t :: post ->
     names_project t = true ->
     forallb (fun t => negb (names_project t)) post = true ->
     exists rv ty,
       py_index t Event.TRAIT_VALUE = inr rv /\
       py_index t Event.TRAIT_TYPE = inr ty /\
       _sanitize_trait_value rv ty = inr (project event)).
Proof.
  intros Hinit Htv Hts.
  destruct (init_parts raw event Hinit)
    as (tv' & ts' & Htv' & Hts' & Hloop & _).
  rewrite Htv in Htv'. injection Htv' as <-.
  rewrite Hts in Hts'. injection Hts' as <-.
  split.
  - intros Hnone.
    apply (parse_traits_loop_no_project ts _ _ Hnone Hloop).
  - intros pre t post -> Ht Hpost.
    apply (parse_traits_loop_project pre post t _ _ Ht Hpost Hloop).
Qed.

(** ** Events the constructor accepts, and values it chokes on *)

(** X3.  An [Event] exists only for a raw event that is a dictionary with
    a truthy ['event_type'] and a truthy ['message_id']; the object keeps
    the raw event as [obj] and the message id as [id], so that
    [obj['event_type']] can always be read from it. *)
Theorem event_has_type_and_id (raw : pyval) (event : Event) :
  Event.__init__ raw = inr event ->
  exists d ety mid,
    raw = PDict d /\
    dict_get String.eqb d "event_type" = Some ety /\ truthy ety = true /\
    dict_get String.eqb d "message_id" = Some mid /\ truthy mid = true /\
    obj event = raw /\ id event = mid /\
    py_getitem (obj event) "event_type" = inr ety.
Proof.
  unfold Event.__init__, Event._validate, Event.missing.
  destruct (truthy raw) eqn:Hraw; simpl; [|discriminate].
  destruct raw as [| | | | | | |d]; simpl; try discriminate.
  destruct (dict_get String.eqb d "event_type") as [ety|] eqn:Ety; simpl;
    [|discriminate].
  destruct (truthy ety) eqn:Hety; simpl; [|discriminate].
  destruct (dict_get String.eqb d "message_id") as [mid|] eqn:Emid; simpl;
    [|discriminate].
  destruct (truthy mid) eqn:Hmid; simpl; [|discriminate].
  destruct (Event._parse_traits (PDict d)) as [|[tr p]]; [discriminate|].
  intros [= <-]. exists d, ety, mid. simpl. rewrite Ety. repeat split; auto.
Qed.

(** X4.  A raw event that is truthy but not a dictionary has no [get]:
    the constructor raises [AttributeError], which is not [InvalidEvent],
    and the loop of [evaluate_events] lets it out: the events after it
    are not processed. *)
Theorem non_mapping_event_escapes (raw : pyval) :
  truthy raw = true ->
  (forall d, raw <> PDict d) ->
  Event.__init__ raw = inl (Raised AttributeError) /\
  forall (rest : list pyval) (s : evaluator),
    events_loop (raw :: rest) s =
      (inl (Raised AttributeError),
       add_trace s [Logged (LogEvaluatingEvent raw)]).
Proof.
  intros Hraw Hnd.
  assert (Hinit : Event.__init__ raw = inl (Raised AttributeError)).
  { unfold Event.__init__, Event._validate, Event.missing.
    rewrite Hraw. simpl.
    destruct raw; try reflexivity. now elim (Hnd d). }
  split; [exact Hinit|]. intros rest s. now apply events_loop_raises.
Qed.

(** X5.  A trait item that is a list of fewer than three elements makes
    the constructor raise [IndexError] (the traits before it being
    converted); as with every exception other than [InvalidEvent], the
    loop of [evaluate_events] lets it out. *)
Theorem short_trait_item_escapes (raw : pyval) (d : list (string * pyval))
    (pre post : list pyval) (l : list pyval)
    (acc : dict pyval pyval * pyval) :
  raw = PDict d ->
  Event._validate raw = inr tt ->
  dict_get String.eqb d "traits" = Some (PList (pre ++ PList l :: post)) ->
  Event.parse_traits_loop pre ([], PStr "") = inr acc ->
  (List.length l < 3)%nat ->
  Event.__init__ raw = inl (Raised IndexError) /\
  forall (rest : list pyval) (s : evaluator),
    events_loop (raw :: rest) s =
      (inl (Raised IndexError),
       add_trace s [Logged (LogEvaluatingEvent raw)]).
Proof.
  intros -> Hval Htr Hpre Hlen.
  assert (Hinit : Event.__init__ (PDict d) = inl (Raised IndexError)).
  { unfold Event.__init__. rewrite Hval.
    unfold Event._parse_traits. simpl. rewrite Htr. simpl.
    rewrite (parse_traits_loop_app pre (PList l :: post) _ _ Hpre). simpl.
    unfold Event.parse_trait. destruct acc as [tr p].
    destruct l as [|k [|ty [|v l]]]; simpl in *; try reflexivity. lia. }
  split; [exact Hinit|]. intros rest s. now apply events_loop_raises.
Qed.

(** ** Paths into the raw event *)

Lemma prefix_dotless (p k : string) :
  prefix p k = true -> dotless k = true -> dotless p = true.
Proof.
  revert k. induction p as [|a p IH]; intros k; [reflexivity|].
  destruct k as [|b k]; simpl; [discriminate|].
  destruct (ascii_dec a b) as [-> | _]; [|discriminate].
  intros Hp Hk. apply andb_prop in Hk as [Hb Hk].
  rewrite Hb. simpl. now apply (IH k).
Qed.

Lemma dotless_not_trait (k : string) :
  dotless k = true -> prefix "traits." k = false.
Proof.
  intros Hk. destruct (prefix "traits." k) eqn:E; [|reflexivity].
  now apply (prefix_dotless "traits." k E) in Hk.
Qed.

Lemma prefix_segment (p a rest : string) :
  prefix (p ++ ".") (a ++ "." ++ rest) = true ->
  dotless p = true -> dotless a = true -> a = p.
Proof.
  revert a. induction p as [|c p IH]; intros a; cbn [append prefix].
  - destruct a as [|b a]; [reflexivity|]. cbn [append prefix].
    destruct (ascii_dec "." b) as [<- | _]; [|discriminate].
    intros _ _ Ha. simpl in Ha. discriminate.
  - destruct a as [|b a]; cbn [append prefix].
    + destruct (ascii_dec c ".") as [-> | _]; [|discriminate].
      intros _ Hp. simpl in Hp. discriminate.
    + destruct (ascii_dec c b) as [-> | _]; [|discriminate].
      intros Hpre Hp Ha. cbn [dotless] in Hp, Ha.
      apply andb_prop in Hp as [_ Hp]. apply andb_prop in Ha as [_ Ha].
      f_equal. now apply IH.
Qed.

Lemma split_on_segment (a rest : string) :
  dotless a = true ->
  split_on "." (a ++ "." ++ rest) = a :: split_on "." rest.
Proof.
  change ("." ++ rest)%string with (String "." rest).
  induction a as [|c a IH]; cbn [append split_on dotless].
  - now rewrite Ascii.eqb_refl.
  - intros Ha. apply andb_prop in Ha as [Hc Ha].
    apply negb_true_iff in Hc. now rewrite Hc, (IH Ha).
Qed.

Lemma split_on_dotless (a : string) :
  dotless a = true -> split_on "." a = [a].
Proof.
  induction a as [|c a IH]; cbn [split_on dotless]; [reflexivity|].
  intros Ha. apply andb_prop in Ha as [Hc Ha].
  apply negb_true_iff in Hc. now rewrite Hc, (IH Ha).
Qed.

Lemma walk_non_mapping (v : pyval) (fs : list string) :
  (forall d, v <> PDict d) -> fs <> [] -> Event.walk v fs = PNone.
Proof.
  intros Hv Hfs. destruct fs as [|f fs]; [now elim Hfs|].
  destruct v; try reflexivity. now elim (Hv d).
Qed.

(** X6.  For a field that does not address a trait, [get_value] walks
    the raw event: a name without a dot is looked up in the raw event
    ([None] when the key is absent); a dotted path is the rest of the
    path walked from the value of its first name; and a walk that comes
    to something that is not a dictionary with names still to go ends in
    [None], without an exception. *)
Theorem get_value_walks_path (event : Event) :
  (forall k,
     dotless k = true ->
     Event.get_value event k =
       match obj event with
       | PDict d =>
           match dict_get String.eqb d k with Some x => x | None => PNone end
       | _ => PNone
       end) /\
  (forall a rest,
     dotless a = true -> a <> "traits" ->
     Event.get_value event (a ++ "." ++ rest) =
       Event.walk (Event.get_value event a) (split_on "." rest)) /\
  (forall v fs,
     (forall d, v <> PDict d) -> fs <> [] -> Event.walk v fs = PNone).
Proof.
  split; [|split].
  - intros k Hk. unfold Event.get_value.
    rewrite (dotless_not_trait k Hk), (split_on_dotless k Hk). simpl.
    now destruct (obj event).
  - intros a rest Ha Hne. unfold Event.get_value.
    rewrite (dotless_not_trait a Ha), (split_on_dotless a Ha).
    destruct (prefix "traits." (a ++ "." ++ rest)) eqn:E.
    + elim Hne. now apply (prefix_segment "traits" a rest E).
    + rewrite (split_on_segment a rest Ha). simpl.
      destruct (obj event); try reflexivity;
        now destruct (split_on "." rest).
  - apply walk_non_mapping.
Qed.

(** ** A time-to-live of 0 *)

Lemma same_ttl_refl (s : evaluator) : same_ttl s s.
Proof. reflexivity. Qed.

Lemma same_ttl_trans (s1 s2 s3 : evaluator) :
  same_ttl s1 s2 -> same_ttl s2 s3 -> same_ttl s1 s3.
Proof. unfold same_ttl. congruence. Qed.

Lemma ttl_emit (e : effect) : preserves same_ttl (emit e).
Proof. intros s. reflexivity. Qed.

Lemma ttl_put_caches (c : dict pyval cache_entry) :
  preserves same_ttl (put_caches c).
Proof. intros s. reflexivity. Qed.

Lemma ttl_call {A : Type} (f : world -> (pyexc + A) * world) :
  preserves same_ttl (call f).
Proof. intros s. unfold call. now destruct (f (env s)). Qed.

Create HintDb ttl discriminated.
Hint Resolve same_ttl_refl same_ttl_trans preserves_ret preserves_raise
  preserves_get_caches preserves_conf ttl_emit ttl_put_caches ttl_call : ttl.

Lemma ttl_get_project_alarms (project : pyval) :
  preserves same_ttl (_get_project_alarms project).
Proof.
  unfold _get_project_alarms, cached_alarms, has_key,
    timeutils_is_older_than, timeutils_utcnow, storage_get_alarms, log.
  preserves_steps ttl.
Qed.

Lemma ttl_fire_alarm (alarm : Alarm) (event : Event) :
  preserves same_ttl (_fire_alarm alarm event).
Proof. unfold _fire_alarm, _refresh. preserves_steps ttl. Qed.

Lemma uncached_refl (s : evaluator) : uncached s s.
Proof. split; reflexivity. Qed.

Lemma uncached_trans (s1 s2 s3 : evaluator) :
  uncached s1 s2 -> uncached s2 s3 -> uncached s1 s3.
Proof.
  intros [T1 C1] [T2 C2]. split; [congruence|].
  intros Hz. rewrite C2, C1; congruence.
Qed.

Lemma uncached_emit (e : effect) : preserves uncached (emit e).
Proof. intros s. split; reflexivity. Qed.

Lemma uncached_call {A : Type} (f : world -> (pyexc + A) * world) :
  preserves uncached (call f).
Proof. intros s. unfold call. destruct (f (env s)). split; reflexivity. Qed.

Lemma uncached_get_project_alarms (project : pyval) :
  preserves uncached (_get_project_alarms project).
Proof.
  intros s. split; [apply ttl_get_project_alarms|].
  intros Hz. rewrite get_project_alarms_miss by now left.
  unfold fetch_and_store.
  destruct (get_alarms project (env s)) as [[x | fetched] w];
    [reflexivity|].
  now rewrite Hz.
Qed.

Lemma uncached_fire_alarm (alarm : Alarm) (event : Event) :
  preserves uncached (_fire_alarm alarm event).
Proof.
  intros s. split; [apply ttl_fire_alarm|].
  intros Hz.
  unfold _fire_alarm, _refresh, bind, emit, call, raise, ret,
    conf_event_alarm_cache_ttl, get_caches, put_caches.
  simpl.
  destruct (super_refresh _ _ _ _ _) as [[e | []] w]; simpl;
    [reflexivity|].
  rewrite Hz. reflexivity.
Qed.

Create HintDb nocache discriminated.
Hint Resolve uncached_refl uncached_trans preserves_ret preserves_raise
  preserves_get_caches preserves_conf uncached_emit uncached_call
  uncached_get_project_alarms uncached_fire_alarm : nocache.

Lemma uncached_log (r : log_record) : preserves uncached (log r).
Proof. apply uncached_emit. Qed.

Hint Resolve uncached_log : nocache.

Lemma uncached_query_loop (event : Event) (cs : list Condition) :
  preserves uncached (query_loop event cs).
Proof.
  induction cs as [|c cs IH]; simpl; [auto with nocache|].
  unfold _compare. preserves_steps nocache.
Qed.

Hint Resolve uncached_query_loop : nocache.

Lemma uncached_evaluate_alarm (alarm : Alarm) (event : Event) :
  preserves uncached (_evaluate_alarm alarm event).
Proof. unfold _evaluate_alarm. preserves_steps nocache. Qed.

Hint Resolve uncached_evaluate_alarm : nocache.

Lemma uncached_alarms_loop (e : pyval) (event : Event)
    (items : list (string * Alarm)) :
  preserves uncached (alarms_loop e event items).
Proof.
  induction items as [|[i a] items IH]; simpl; [auto with nocache|].
  preserves_steps nocache.
Qed.

Hint Resolve uncached_alarms_loop : nocache.

Lemma uncached_events_loop (events : list pyval) :
  preserves uncached (events_loop events).
Proof.
  induction events as [|e events IH]; simpl; [auto with nocache|].
  preserves_steps nocache.
Qed.

Lemma uncached_evaluate_events (events : pyval) :
  preserves uncached (evaluate_events events).
Proof.
  pose proof uncached_events_loop.
  unfold evaluate_events. preserves_steps nocache.
Qed.

(** X7.  No method of the evaluator changes its time-to-live, and with a
    time-to-live of 0 nothing is ever cached: whatever [evaluate_events]
    is given, the caches are afterwards what they were (empty, for an
    evaluator that has had that setting from its construction); and
    every call of [_get_project_alarms] asks the storage. *)
Theorem ttl_zero_never_caches :
  (forall (events : pyval) (s : evaluator),
     event_alarm_cache_ttl (snd (evaluate_events events s)) =
       event_alarm_cache_ttl s) /\
  (forall (events : pyval) (s : evaluator),
     event_alarm_cache_ttl s = 0 ->
     caches (snd (evaluate_events events s)) = caches s) /\
  (forall (events : pyval) (w : world),
     caches (snd (evaluate_events events
                    (EventAlarmEvaluator.__init__ 0 w))) = []) /\
  (forall (project : pyval) (s : evaluator),
     event_alarm_cache_ttl s = 0 ->
     fetches (trace (snd (_get_project_alarms project s))) =
       fetches (trace s) ++ [project]).
Proof.
  split; [|split; [|split]].
  - intros events s. apply uncached_evaluate_events.
  - intros events s. apply uncached_evaluate_events.
  - intros events w.
    now apply (uncached_evaluate_events events
                 (EventAlarmEvaluator.__init__ 0 w)).
  - intros project s Hz. rewrite get_project_alarms_miss by now left.
    apply fetch_and_store_fetches.
Qed.

(** ** Firing and the cached copy *)

Lemma alarms_set_other (d : dict string Alarm) (k i : string) (v : Alarm) :
  i <> k ->
  dict_get String.eqb (dict_set String.eqb d k v) i = dict_get String.eqb d i.
Proof.
  intros Hne. induction d as [|[k' v'] d IH]; simpl.
  - destruct (String.eqb_spec k i); [now subst | reflexivity].
  - destruct (String.eqb_spec k' k) as [-> | Hk]; simpl.
    + destruct (String.eqb_spec k i); [now subst | reflexivity].
    + now rewrite IH.
Qed.

Lemma alarms_set_same (d : dict string Alarm) (k : string) (v : Alarm) :
  dict_get String.eqb (dict_set String.eqb d k v) k = Some v.
Proof. apply dict_get_set_same, String.eqb_refl. Qed.

Section Firing.
Variables (alarm : Alarm) (event : Event) (s : evaluator).

Lemma fire_alarm_refresh_fails (e : pyexc) (w : world) :
  super_refresh alarm ALARM (fire_reason alarm event)
    (fire_reason_data event) (env s) = (inl e, w) ->
  _fire_alarm alarm event s =
    (inl (Raised e), with_env (add_trace s [refreshing alarm event]) w).
Proof.
  intros Hr.
  unfold _fire_alarm, _refresh, bind, emit, call.
  fold (fire_reason alarm event). fold (fire_reason_data event).
  simpl. now rewrite Hr.
Qed.

Lemma fire_alarm_not_cached (w : world) :
  super_refresh alarm ALARM (fire_reason alarm event)
    (fire_reason_data event) (env s) = (inr tt, w) ->
  event_alarm_cache_ttl s = 0 \/
  dict_get py_eq (caches s) (PStr (project_id alarm)) = None ->
  _fire_alarm alarm event s =
    (inr tt, with_env (add_trace s [refreshing alarm event]) w).
Proof.
  intros Hr Hno.
  unfold _fire_alarm, _refresh, bind, emit, call, ret,
    conf_event_alarm_cache_ttl, get_caches.
  fold (fire_reason alarm event). fold (fire_reason_data event).
  simpl. rewrite Hr. simpl.
  destruct Hno as [-> | Hn]; [reflexivity|].
  unfold dict_mem. rewrite Hn. now rewrite andb_false_r.
Qed.

Lemma fire_alarm_missing_copy (w : world) (entry : cache_entry) :
  super_refresh alarm ALARM (fire_reason alarm event)
    (fire_reason_data event) (env s) = (inr tt, w) ->
  event_alarm_cache_ttl s <> 0 ->
  dict_get py_eq (caches s) (PStr (project_id alarm)) = Some entry ->
  dict_get String.eqb (alarms entry) (alarm_id alarm) = None ->
  _fire_alarm alarm event s =
    (inl (Raised KeyError),
     with_env (add_trace s [refreshing alarm event]) w).
Proof.
  intros Hr Httl He Hc.
  unfold _fire_alarm, _refresh, bind, emit, call, ret, raise,
    conf_event_alarm_cache_ttl, get_caches.
  fold (fire_reason alarm event). fold (fire_reason_data event).
  simpl. rewrite Hr. simpl.
  apply Z.eqb_neq in Httl. rewrite Httl. unfold dict_mem. rewrite He. simpl.
  now rewrite Hc.
Qed.

Lemma fire_alarm_cached (w : world) (entry : cache_entry) (cached : Alarm) :
  super_refresh alarm ALARM (fire_reason alarm event)
    (fire_reason_data event) (env s) = (inr tt, w) ->
  event_alarm_cache_ttl s <> 0 ->
  dict_get py_eq (caches s) (PStr (project_id alarm)) = Some entry ->
  dict_get String.eqb (alarms entry) (alarm_id alarm) = Some cached ->
  _fire_alarm alarm event s =
    (inr tt,
     add_trace
       (with_caches (with_env (add_trace s [refreshing alarm event]) w)
          (dict_set py_eq (caches s) (PStr (project_id alarm))
             {| alarms := dict_set String.eqb (alarms entry)
                            (alarm_id alarm) (set_state cached ALARM);
                updated := updated entry |}))
       [CachedStateSet (project_id alarm) (alarm_id alarm) ALARM]).
Proof.
  intros Hr Httl He Hc.
  unfold _fire_alarm, _refresh, bind, emit, call, ret, raise,
    conf_event_alarm_cache_ttl, get_caches, put_caches.
  fold (fire_reason alarm event). fold (fire_reason_data event).
  simpl. rewrite Hr. simpl.
  apply Z.eqb_neq in Httl. rewrite Httl. unfold dict_mem. rewrite He. simpl.
  now rewrite Hc.
Qed.
End Firing.

(** X8.  When an alarm fires whose project has a cache entry holding a
    copy of it, and the refresh collaborator returns, the copy is set to
    state ['alarm'] in place: the entry keeps its time of storing and its
    other alarms.  A lookup of the project within the time-to-live of
    that entry (a time-to-live that a [timedelta] can hold, at most
    86399999999999 seconds) then returns the mapping with the alarm in
    state ['alarm'], without asking the storage, and an alarm with
    [repeat_actions] false in that state does not fire again. *)
Theorem firing_marks_the_cached_copy (alarm : Alarm) (event : Event)
    (s : evaluator) (entry : cache_entry) (cached : Alarm) (w : world) :
  event_alarm_cache_ttl s > 0 ->
  dict_get py_eq (caches s) (PStr (project_id alarm)) = Some entry ->
  dict_get String.eqb (alarms entry) (alarm_id alarm) = Some cached ->
  super_refresh alarm ALARM (fire_reason alarm event)
    (fire_reason_data event) (env s) = (inr tt, w) ->
  let r := _fire_alarm alarm event s in
  let entry' :=
    {| alarms := dict_set String.eqb (alarms entry) (alarm_id alarm)
                   (set_state cached ALARM);
       updated := updated entry |} in
  fst r = inr tt /\
  trace (snd r) =
    trace s ++
    [Refresh alarm ALARM (fire_reason alarm event) (fire_reason_data event);
     CachedStateSet (project_id alarm) (alarm_id alarm) ALARM] /\
  dict_get py_eq (caches (snd r)) (PStr (project_id alarm)) = Some entry' /\
  dict_get String.eqb (alarms entry') (alarm_id alarm) =
    Some (set_state cached ALARM) /\
  (forall i, i <> alarm_id alarm ->
     dict_get String.eqb (alarms entry') i =
       dict_get String.eqb (alarms entry) i) /\
  (forall (w2 w2' : world) (now : Z),
     event_alarm_cache_ttl s <= 86399999999999 ->
     utcnow w2 = (now, w2') ->
     now - updated entry <= event_alarm_cache_ttl s * 1000000 ->
     let r2 :=
       _get_project_alarms (PStr (project_id alarm))
         (with_env (snd r) w2) in
     fst r2 = inr (alarms entry') /\
     fetches (trace (snd r2)) = fetches (trace s)) /\
  (repeat_actions cached = false ->
   forall (event2 : Event) (s2 : evaluator),
     refresh_calls
       (trace (snd (_evaluate_alarm (set_state cached ALARM) event2 s2))) =
       refresh_calls (trace s2)).
Proof.
  intros Hpos He Hc Hr r entry'.
  assert (Httl : event_alarm_cache_ttl s <> 0) by lia.
  subst r.
  rewrite (fire_alarm_cached alarm event s w entry cached Hr Httl He Hc).
  fold entry'. simpl.
  assert (Hget : dict_get py_eq
                   (dict_set py_eq (caches s) (PStr (project_id alarm)) entry')
                   (PStr (project_id alarm)) = Some entry')
    by apply dict_get_set_same, py_eq_str_refl.
  split; [reflexivity|]. split; [now rewrite <- app_assoc|].
  split; [exact Hget|]. split; [apply alarms_set_same|].
  split; [intros i Hi; now apply alarms_set_other|]. split.
  - intros w2 w2' now Hmax Hnow Hage.
    rewrite (get_project_alarms_hit (PStr (project_id alarm)) entry' _
               now w2').
    + simpl. split; [reflexivity|].
      rewrite !fetches_app. simpl. now rewrite !app_nil_r.
    + exact Httl.
    + reflexivity.
    + exact Hget.
    + exact Hnow.
    + simpl. apply timedelta_ok_small. lia.
    + simpl. apply Z.ltb_ge. lia.
  - intros Hrep event2 s2.
    unfold _evaluate_alarm, bind, log, emit.
    rewrite (guard_true (set_state cached ALARM)) by (simpl; auto).
    simpl. rewrite !refresh_calls_app. simpl. now rewrite !app_nil_r.
Qed.

(** X9.  Firing without a cached copy to mark.  When the refresh
    collaborator raises, the exception goes on to the caller and the
    caches are not touched.  When it returns and caching is off or the
    alarm's project has no cache entry, firing ends there, the caches
    untouched.  When the project has an entry that does not hold the
    alarm, firing raises [KeyError], after the refresh call has been
    made. *)
Theorem firing_without_cached_copy (alarm : Alarm) (event : Event)
    (s : evaluator) (r : pyexc + unit) (w : world) :
  super_refresh alarm ALARM (fire_reason alarm event)
    (fire_reason_data event) (env s) = (r, w) ->
  let s' :=
    with_env
      (add_trace s [Refresh alarm ALARM (fire_reason alarm event)
                      (fire_reason_data event)]) w in
  (forall e, r = inl e ->
     _fire_alarm alarm event s = (inl (Raised e), s')) /\
  (r = inr tt ->
   event_alarm_cache_ttl s = 0 \/
   dict_get py_eq (caches s) (PStr (project_id alarm)) = None ->
   _fire_alarm alarm event s = (inr tt, s')) /\
  (forall entry,
     r = inr tt ->
     event_alarm_cache_ttl s <> 0 ->
     dict_get py_eq (caches s) (PStr (project_id alarm)) = Some entry ->
     dict_get String.eqb (alarms entry) (alarm_id alarm) = None ->
     _fire_alarm alarm event s = (inl (Raised KeyError), s')) /\
  caches s' = caches s.
Proof.
  intros Hr s'. split; [|split; [|split]].
  - intros e ->. now apply fire_alarm_refresh_fails.
  - intros -> Hno. now apply fire_alarm_not_cached.
  - intros entry -> Httl He Hc. now apply fire_alarm_missing_copy with entry.
  - reflexivity.
Qed.

(** ** The mapping built from the storage's answer *)

Lemma alarms_get_set (d : dict string Alarm) (k i : string) (v : Alarm) :
  dict_get String.eqb (dict_set String.eqb d k v) i =
    if String.eqb k i then Some v else dict_get String.eqb d i.
Proof.
  destruct (String.eqb_spec k i) as [<- | Hne].
  - apply alarms_set_same.
  - apply alarms_set_other. congruence.
Qed.

Lemma find_last {A : Type} (f : A -> bool) (l : list A) (a : A) :
  find f (l ++ [a]) =
    match find f l with
    | Some x => Some x
    | None => if f a then Some a else None
    end.
Proof.
  induction l as [|b l IH]; simpl; [reflexivity|].
  now destruct (f b).
Qed.

Lemma fold_set_get (fetched : list Alarm) (acc : dict string Alarm)
    (i : string) :
  dict_get String.eqb
    (fold_left (fun d a => dict_set String.eqb d (alarm_id a) a) fetched acc)
    i =
    match find (fun a => String.eqb (alarm_id a) i) (rev fetched) with
    | Some a => Some a
    | None => dict_get String.eqb acc i
    end.
Proof.
  revert acc. induction fetched as [|a l IH]; intros acc; simpl;
    [reflexivity|].
  rewrite IH, find_last, alarms_get_set.
  destruct (find _ (rev l)); [reflexivity|].
  now destruct (String.eqb (alarm_id a) i).
Qed.

Lemma dict_set_keys (d : dict string Alarm) (k x : string) (v : Alarm) :
  In x (map fst (dict_set String.eqb d k v)) ->
  x = k \/ In x (map fst d).
Proof.
  induction d as [|[k' v'] d IH]; simpl.
  - intros [<- | []]. now left.
  - destruct (String.eqb_spec k' k) as [-> | Hne]; simpl.
    + intros [<- | Hin]; [now left | right; now right].
    + intros [<- | Hin]; [right; now left|].
      destruct (IH Hin) as [-> | Hd]; [now left | right; now right].
Qed.

Lemma dict_set_nodup (d : dict string Alarm) (k : string) (v : Alarm) :
  NoDup (map fst d) -> NoDup (map fst (dict_set String.eqb d k v)).
Proof.
  induction d as [|[k' v'] d IH]; simpl; intros Hnd.
  - constructor; [intros [] | constructor].
  - inversion Hnd as [|? ? Hnotin Hnd']; subst.
    destruct (String.eqb_spec k' k) as [-> | Hne]; simpl.
    + now constructor.
    + constructor; [|now apply IH].
      intros Hin. apply dict_set_keys in Hin as [-> | Hin]; auto.
Qed.

Lemma dict_set_items (d : dict string Alarm) (k x : string) (v a : Alarm) :
  In (x, a) (dict_set String.eqb d k v) ->
  (x = k /\ a = v) \/ In (x, a) d.
Proof.
  induction d as [|[k' v'] d IH]; simpl.
  - intros [[= <- <-] | []]. now left.
  - destruct (String.eqb_spec k' k) as [-> | Hne]; simpl.
    + intros [[= <- <-] | Hin]; [now left | right; now right].
    + intros [[= <- <-] | Hin]; [right; now left|].
      destruct (IH Hin) as [Hk | Hd]; [now left | right; now right].
Qed.

Lemma fold_set_nodup (fetched : list Alarm) (acc : dict string Alarm) :
  NoDup (map fst acc) ->
  NoDup (map fst
    (fold_left (fun d a => dict_set String.eqb d (alarm_id a) a)
       fetched acc)).
Proof.
  revert acc. induction fetched as [|a l IH]; intros acc Hnd; simpl;
    [exact Hnd|].
  now apply IH, dict_set_nodup.
Qed.

Lemma fold_set_items (fetched : list Alarm) (acc : dict string Alarm)
    (k : string) (a : Alarm) :
  In (k, a)
    (fold_left (fun d a => dict_set String.eqb d (alarm_id a) a)
       fetched acc) ->
  (k = alarm_id a /\ In a fetched) \/ In (k, a) acc.
Proof.
  revert acc. induction fetched as [|b l IH]; intros acc; simpl;
    [now right|].
  intros Hin. destruct (IH _ Hin) as [[Hk Hl] | Hacc].
  - left. split; [exact Hk | now right].
  - apply dict_set_items in Hacc as [[-> ->] | Hacc]; [|now right].
    left. split; [reflexivity | now left].
Qed.

(** X10.  The mapping [_get_project_alarms] builds from the alarms the
    storage returned, [{a.alarm_id: a for a in fetched}]: looking up an id
    gives the last alarm of the answer that has this id (none when no
    alarm has it), no id is a key twice, and every alarm in the mapping is
    one of the answer, kept under its own id. *)
Theorem by_alarm_id_last_wins (fetched : list Alarm) :
  (forall i,
     dict_get String.eqb (by_alarm_id fetched) i =
       find (fun a => String.eqb (alarm_id a) i) (rev fetched)) /\
  NoDup (map fst (by_alarm_id fetched)) /\
  (forall k a,
     In (k, a) (by_alarm_id fetched) -> k = alarm_id a /\ In a fetched).
Proof.
  unfold by_alarm_id. split; [|split].
  - intros i. rewrite fold_set_get. now destruct (find _ (rev fetched)).
  - apply fold_set_nodup. constructor.
  - intros k a Hin. now destruct (fold_set_items _ _ _ _ Hin) as [? | []].
Qed.

(** ** The cache after a lookup *)

(** X11.  A cache entry older than the time-to-live is deleted before
    the storage is asked.  When the storage then raises, the exception
    leaves [_get_project_alarms], and the caches are left with the entry
    deleted and nothing stored in its place.  (This for a time-to-live
    that a [timedelta] can hold, at most 86399999999999 seconds; with a
    longer one the comparison of the entry's age raises
    [OverflowError], and the entry is left where it is.) *)
Theorem stale_entry_is_dropped_on_failure (project : pyval)
    (entry : cache_entry) (s : evaluator) (now : Z) (w w' : world)
    (err : pyexc) :
  event_alarm_cache_ttl s > 0 ->
  hashable project = true ->
  dict_get py_eq (caches s) project = Some entry ->
  utcnow (env s) = (now, w) ->
  now - updated entry > event_alarm_cache_ttl s * 1000000 ->
  get_alarms project w = (inl err, w') ->
  let r := _get_project_alarms project s in
  (event_alarm_cache_ttl s <= 86399999999999 ->
   fst r = inl (Raised err) /\
   caches (snd r) = dict_del py_eq (caches s) project /\
   trace (snd r) = trace s ++ [GetAlarms project] /\
   env (snd r) = w') /\
  (event_alarm_cache_ttl s > 86399999999999 ->
   fst r = inl (Raised OverflowError) /\
   caches (snd r) = caches s /\
   trace (snd r) = trace s).
Proof.
  intros Hpos Hh Hentry Hnow Hage Hget r.
  assert (Httl : event_alarm_cache_ttl s <> 0) by lia.
  subst r. split.
  - intros Hmax.
    assert (Hok : timedelta_ok (event_alarm_cache_ttl s) = true)
      by (apply timedelta_ok_small; lia).
    rewrite (get_project_alarms_stale project entry s now w
               Httl Hh Hentry Hnow Hok) by (apply Z.ltb_lt; lia).
    unfold fetch_and_store. simpl. rewrite Hget. simpl. auto.
  - intros Hbig.
    rewrite (get_project_alarms_overflow project entry s now w
               Httl Hh Hentry Hnow) by now apply timedelta_ok_large.
    simpl. auto.
Qed.

(** X12.  With caching on, the mapping [_get_project_alarms] returns for
    a project is the one the caches hold for it when the call is over,
    whether it was served from the cache or fetched.  (The project is a
    value a dictionary can have as a key and that equals itself.) *)
Theorem returned_alarms_are_the_cached (project : pyval) (s s' : evaluator)
    (found : dict string Alarm) :
  event_alarm_cache_ttl s <> 0 ->
  hashable project = true ->
  py_eq project project = true ->
  _get_project_alarms project s = (inr found, s') ->
  exists entry,
    dict_get py_eq (caches s') project = Some entry /\
    alarms entry = found.
Proof.
  intros Httl Hh Hkey.
  assert (Hfetch : forall s0,
    event_alarm_cache_ttl s0 <> 0 ->
    fetch_and_store project s0 = (inr found, s') ->
    exists entry,
      dict_get py_eq (caches s') project = Some entry /\
      alarms entry = found).
  { intros s0 Httl0. unfold fetch_and_store.
    destruct (get_alarms project (env s0)) as [[x | fetched] w1];
      [discriminate|].
    apply Z.eqb_neq in Httl0. rewrite Httl0.
    destruct (utcnow w1) as [t1 w1']. intros [= <- <-]. simpl.
    eexists. split; [now apply dict_get_set_same | reflexivity]. }
  destruct (dict_get py_eq (caches s) project) as [entry|] eqn:Hentry.
  - destruct (utcnow (env s)) as [now w] eqn:Hnow.
    destruct (timedelta_ok (event_alarm_cache_ttl s)) eqn:Hok.
    + destruct (event_alarm_cache_ttl s * 1000000 <? now - updated entry)
        eqn:Hage.
      * rewrite (get_project_alarms_stale project entry s now w
                   Httl Hh Hentry Hnow Hok Hage).
        now apply Hfetch.
      * rewrite (get_project_alarms_hit project entry s now w
                   Httl Hh Hentry Hnow Hok Hage).
        intros [= <- <-]. now exists entry.
    + rewrite (get_project_alarms_overflow project entry s now w
                 Httl Hh Hentry Hnow Hok).
      discriminate.
  - rewrite get_project_alarms_miss by (right; now split).
    now apply Hfetch.
Qed.

(** ** The loop over the events *)

(** X13.  The loop over the events of a batch keeps nothing from one
    event to the next but the evaluator itself: running it on a batch
    [l1 ++ l2] is running it on [l1] and then, unless an exception left
    it there, on [l2] from the evaluator [l1] left behind. *)
Theorem events_loop_runs_in_sequence (l1 l2 : list pyval) (s : evaluator) :
  events_loop (l1 ++ l2) s =
    match events_loop l1 s with
    | (inr _, s1) => events_loop l2 s1
    | (inl x, s1) => (inl x, s1)
    end.
Proof.
  revert s. induction l1 as [|e l1 IH]; intros s; [reflexivity|].
  simpl. unfold bind, log, emit. simpl.
  destruct (Event.__init__ e) as [[|x] | event].
  - apply IH.
  - reflexivity.
  - destruct (_get_project_alarms _ _) as [[x | items] s1]; [reflexivity|].
    destruct (alarms_loop e event items s1) as [[x | []] s2];
      [reflexivity|].
    apply IH.
Qed.

Lemma get_project_alarms_returns (project : pyval) (s : evaluator) :
  hashable project = true ->
  timedelta_ok (event_alarm_cache_ttl s) = true ->
  (forall w, exists l w', get_alarms project w = (inr l, w')) ->
  exists items s1, _get_project_alarms project s = (inr items, s1).
Proof.
  intros Hh Hok Hs.
  destruct (_get_project_alarms project s) as [[x | items] s1] eqn:E.
  - apply get_project_alarms_raises in E
      as [(err & w & w' & _ & Hg) | [_ Hbad]]; [| congruence | exact Hh].
    destruct (Hs w) as (l & w'' & Hl). congruence.
  - now exists items, s1.
Qed.

Lemma events_loop_completes (events : list pyval) :
  (forall e x, In e events -> Event.__init__ e <> inl (Raised x)) ->
  (forall e event,
     In e events -> Event.__init__ e = inr event ->
     forall w, exists l w', get_alarms (project event) w = (inr l, w')) ->
  forall s,
    timedelta_ok (event_alarm_cache_ttl s) = true ->
    exists mid,
      fst (events_loop events s) = inr tt /\
      trace (snd (events_loop events s)) = trace s ++ mid /\
      forall e, In e events -> In (Logged (LogEvaluatingEvent e)) mid.
Proof.
  induction events as [|e rest IH]; intros Hev Hst s Hok.
  - exists []. simpl. rewrite app_nil_r. now repeat split.
  - assert (Hev' : forall e0 x,
              In e0 rest -> Event.__init__ e0 <> inl (Raised x))
      by (intros; apply Hev; now right).
    assert (Hst' : forall e0 event,
              In e0 rest -> Event.__init__ e0 = inr event ->
              forall w, exists l w',
                get_alarms (project event) w = (inr l, w'))
      by (intros e0 event Hin; apply Hst; now right).
    destruct (Event.__init__ e) as [[|x] | event] eqn:Hinit.
    + rewrite events_loop_invalid by exact Hinit.
      destruct (IH Hev' Hst'
                  (add_trace s [Logged (LogEvaluatingEvent e);
                                Logged LogAbortingEvent]) Hok)
        as (mid & Hr & Ht & Hin).
      exists ([Logged (LogEvaluatingEvent e); Logged LogAbortingEvent]
              ++ mid).
      split; [exact Hr|]. split.
      * rewrite Ht. simpl. now rewrite <- app_assoc.
      * intros e0 [<- | Hi]; [now left|]. right. right. now apply Hin.
    + exfalso. apply (Hev e x); [now left | exact Hinit].
    + destruct (get_project_alarms_returns (project event)
                  (add_trace s [Logged (LogEvaluatingEvent e)]))
        as (items & s1 & Hget).
      { now apply (event_project_hashable e). }
      { exact Hok. }
      { apply (Hst e event); [now left | exact Hinit]. }
      rewrite (events_loop_evaluated e event items rest s s1 Hinit Hget).
      destruct (writes_get_project_alarms (project event)
                  (add_trace s [Logged (LogEvaluatingEvent e)]))
        as (l1 & E1 & _).
      pose proof (ttl_get_project_alarms (project event)
                    (add_trace s [Logged (LogEvaluatingEvent e)])) as T1.
      unfold same_ttl in T1.
      rewrite Hget in E1, T1. simpl in E1, T1.
      destruct (writes_alarms_loop e event items s1) as (l2 & E2 & _).
      destruct (uncached_alarms_loop e event items s1) as [T2 _].
      destruct (IH Hev' Hst' (snd (alarms_loop e event items s1)))
        as (mid & Hr & Ht & Hin).
      { now rewrite T2, T1. }
      exists ((Logged (LogEvaluatingEvent e) :: l1) ++ l2 ++ mid).
      split; [exact Hr|]. split.
      * rewrite Ht, E2, E1. simpl. now rewrite <- !app_assoc.
      * intros e0 [<- | Hi]; [now left|].
        right. apply in_or_app. right. apply in_or_app. right.
        now apply Hin.
Qed.

(** X14.  A batch runs to its end when nothing in it can stop it: if the
    time-to-live is one that a [timedelta] can hold (from
    -86399999913600 to 86399999999999 seconds), no event of the batch
    makes the event constructor raise anything but [InvalidEvent], and
    the storage answers for the project of every event the constructor
    accepts, then [evaluate_events] returns, its last record being the
    one that says it finished, and every event of the batch was taken
    up: whatever the alarms do, no failure of an alarm stops the
    batch. *)
Theorem sound_batch_runs_to_its_end (events : list pyval) (s : evaluator) :
  -86399999913600 <= event_alarm_cache_ttl s <= 86399999999999 ->
  (forall e x, In e events -> Event.__init__ e <> inl (Raised x)) ->
  (forall e event,
     In e events -> Event.__init__ e = inr event ->
     forall w, exists l w', get_alarms (project event) w = (inr l, w')) ->
  let r := evaluate_events (PList events) s in
  fst r = inr tt /\
  exists mid,
    trace (snd r) =
      trace s ++ Logged (LogStarting (List.length events)) :: mid
               ++ [Logged LogFinished] /\
    forall e, In e events -> In (Logged (LogEvaluatingEvent e)) mid.
Proof.
  intros Hrange Hev Hst r. subst r.
  unfold evaluate_events, bind, log, emit.
  destruct (events_loop_completes events Hev Hst
              (add_trace s [Logged (LogStarting (List.length events))]))
    as (mid & Hr & Ht & Hin).
  { now apply timedelta_ok_range. }
  destruct (events_loop events _) as [[x | []] s1]; [discriminate|].
  simpl in *. split; [reflexivity|].
  exists mid. split; [|exact Hin].
  rewrite Ht. now rewrite <- !app_assoc.
Qed.

(** ** Two events of a project in one batch *)

Lemma evaluate_alarm_skips (alarm : Alarm) (event : Event) (s : evaluator) :
  repeat_actions alarm = false -> state alarm = ALARM ->
  _evaluate_alarm alarm event s =
    (inr tt, add_trace s [evaluating alarm event;
                          Logged (LogSkip (alarm_id alarm))]).
Proof.
  intros Hr Hs. unfold _evaluate_alarm, bind, log, emit.
  rewrite (guard_true alarm Hr Hs). now rewrite add_trace_app.
Qed.

(** X15.  With caching on (a time-to-live that a [timedelta] can hold,
    at most 86399999999999 seconds), an alarm with [repeat_actions] false
    fires once for two events of its project: the first event has the
    project's alarms fetched and stored, the alarm's conditions hold and
    it fires, which marks the cached copy; the second event, taken up
    within the time-to-live, is served that copy, finds it in state
    ['alarm'] and skips it.  One fetch and one refresh call in all. *)
Theorem cached_alarm_fires_once (e1 e2 : pyval) (ev1 ev2 : Event)
    (a : Alarm) (ty : pyval) (s : evaluator) (w1 w2 w3 w4 : world)
    (t1 t2 : Z) :
  0 < event_alarm_cache_ttl s <= 86399999999999 ->
  dict_get py_eq (caches s) (PStr (project_id a)) = None ->
  Event.__init__ e1 = inr ev1 ->
  Event.__init__ e2 = inr ev2 ->
  project ev1 = PStr (project_id a) ->
  project ev2 = PStr (project_id a) ->
  repeat_actions a = false ->
  state a <> ALARM ->
  py_getitem (obj ev1) "event_type" = inr ty ->
  fnmatch ty (event_type (rule a)) = inr true ->
  Forall (holds ev1) (query (rule a)) ->
  get_alarms (PStr (project_id a)) (env s) = (inr [a], w1) ->
  utcnow w1 = (t1, w2) ->
  super_refresh a ALARM (fire_reason a ev1) (fire_reason_data ev1) w2 =
    (inr tt, w3) ->
  utcnow w3 = (t2, w4) ->
  t2 - t1 <= event_alarm_cache_ttl s * 1000000 ->
  let r := events_loop [e1; e2] s in
  fst r = inr tt /\
  refresh_calls (trace (snd r)) = refresh_calls (trace s) ++ [(a, ALARM)] /\
  fetches (trace (snd r)) = fetches (trace s) ++ [PStr (project_id a)] /\
  exists entry,
    dict_get py_eq (caches (snd r)) (PStr (project_id a)) = Some entry /\
    alarms entry = [(alarm_id a, set_state a ALARM)] /\
    updated entry = t1.
Proof.
  intros Hpos Hcold Hev1 Hev2 Hp1 Hp2 Hrep Hst Hty Hm Hall Hget Hnow1
    Hrefresh Hnow2 Hage r.
  assert (Httl : event_alarm_cache_ttl s <> 0) by lia.
  set (p := PStr (project_id a)) in *.
  set (entry := {| alarms := by_alarm_id [a]; updated := t1 |}).
  set (entry' :=
         {| alarms := dict_set String.eqb (alarms entry) (alarm_id a)
                        (set_state a ALARM);
            updated := updated entry |}).
  (* the first event: fetch and store *)
  set (s0 := add_trace s [Logged (LogEvaluatingEvent e1)]).
  set (s1 := with_caches (with_env (add_trace s0 [GetAlarms p]) w2)
               (dict_set py_eq (caches s0) p entry)).
  assert (Hget1 : _get_project_alarms (project ev1) s0 =
                    (inr (by_alarm_id [a]), s1)).
  { rewrite Hp1. fold p.
    rewrite get_project_alarms_miss by (right; now split).
    now apply fetch_and_store_stores with (w := w1). }
  (* the alarm fires and the cached copy is marked *)
  set (s1' := add_trace s1 (evaluating a ev1 ::
                map Logged (map (comparing ev1) (query (rule a))))).
  set (s2 := add_trace
               (with_caches
                  (with_env
                     (add_trace s1'
                        [Refresh a ALARM (fire_reason a ev1)
                           (fire_reason_data ev1)]) w3)
                  (dict_set py_eq (caches s1') p entry'))
               [CachedStateSet (project_id a) (alarm_id a) ALARM]).
  assert (Hfire : _evaluate_alarm a ev1 s1 = (inr tt, s2)).
  { rewrite (evaluate_alarm_fires a ev1 ty (or_intror Hst) Hty s1 Hm Hall).
    fold s1'.
    apply (fire_alarm_cached a ev1 s1' w3 entry a).
    - exact Hrefresh.
    - exact Httl.
    - simpl. now apply dict_get_set_same, py_eq_str_refl.
    - simpl. now rewrite String.eqb_refl. }
  (* the second event: served from the cache *)
  set (s2' := add_trace s2 [Logged (LogEvaluatingEvent e2)]).
  assert (Hentry' : dict_get py_eq (caches s2') p = Some entry')
    by (simpl; now apply dict_get_set_same, py_eq_str_refl).
  assert (Hget2 : _get_project_alarms (project ev2) s2' =
                    (inr (alarms entry'), with_env s2' w4)).
  { rewrite Hp2. fold p.
    apply (get_project_alarms_hit p entry' s2' t2 w4).
    - exact Httl.
    - reflexivity.
    - exact Hentry'.
    - exact Hnow2.
    - simpl. apply timedelta_ok_small. lia.
    - simpl. apply Z.ltb_ge. lia. }
  assert (Halarms : alarms entry' = [(alarm_id a, set_state a ALARM)])
    by (simpl; now rewrite String.eqb_refl).
  subst r.
  rewrite (events_loop_evaluated e1 ev1 _ [e2] s s1 Hev1 Hget1).
  change (by_alarm_id [a]) with [(alarm_id a, a)].
  rewrite alarms_loop_step, Hfire. simpl after_alarm.
  change (snd (alarms_loop e1 ev1 [] s2)) with s2.
  rewrite (events_loop_evaluated e2 ev2 _ [] s2 _ Hev2 Hget2).
  rewrite Halarms, alarms_loop_step.
  rewrite (evaluate_alarm_skips (set_state a ALARM))
    by (simpl; auto).
  simpl. split; [reflexivity|].
  rewrite !refresh_calls_app, !fetches_app. unfold evaluating. simpl.
  rewrite refresh_calls_logged, fetches_logged. simpl. rewrite !app_nil_r.
  split; [reflexivity|]. split; [reflexivity|].
  exists entry'. split; [|split; [exact Halarms | reflexivity]].
  now apply dict_get_set_same, py_eq_str_refl.
Qed.

(** ** Events the constructor accepts *)

Lemma dict_get_set_cases {K V : Type} (eqb : K -> K -> bool)
    (d : dict K V) (k k' : K) (v x : V) :
  dict_get eqb (dict_set eqb d k v) k' = Some x ->
  x = v \/ dict_get eqb d k' = Some x.
Proof.
  induction d as [|[k0 v0] d IH]; simpl.
  - destruct (eqb k k'); [intros [= <-]; now left | discriminate].
  - destruct (eqb k0 k); simpl; destruct (eqb k0 k'); auto.
    intros [= <-]. now left.
Qed.

Lemma parse_trait_plain (t : pyval) (acc : dict pyval pyval * pyval) :
  plain_trait t = true -> all_text acc ->
  exists acc', Event.parse_trait t acc = inr acc' /\ all_text acc'.
Proof.
  destruct acc as [traits project].
  destruct t as [| | | | | |l|]; try discriminate.
  destruct l as [|k [|ty [|v l]]]; try discriminate.
  simpl. intros Hplain [[p Hp] Htraits]. simpl in Hp, Htraits.
  apply andb_prop in Hplain as [Hh Hty]. rewrite Hh.
  apply negb_true_iff in Hty.
  repeat (apply orb_false_elim in Hty as [Hty ?]).
  unfold _sanitize_trait_value.
  repeat match goal with E : py_eq ty _ = false |- _ => rewrite E; clear E end.
  simpl. eexists. split; [reflexivity|]. split; simpl.
  - destruct (_ || _); eauto.
  - intros k0 v0 Hg. apply dict_get_set_cases in Hg as [-> | Hg]; eauto.
Qed.

Lemma parse_traits_loop_plain (ts : list pyval)
    (acc : dict pyval pyval * pyval) :
  forallb plain_trait ts = true -> all_text acc ->
  exists acc', Event.parse_traits_loop ts acc = inr acc' /\ all_text acc'.
Proof.
  revert acc. induction ts as [|t ts IH]; intros acc; simpl.
  - intros _ Hacc. now exists acc.
  - intros Hall Hacc. apply andb_prop in Hall as [Ht Hts].
    destruct (parse_trait_plain t acc Ht Hacc) as (acc1 & -> & Hacc1).
    now apply IH.
Qed.

(** X16.  An event the constructor is sure to accept: a dictionary with a
    truthy ['event_type'] and ['message_id'] whose traits, if it has any,
    are a list of items the sanitizer turns into text (a name that can be
    a key, a type that is none of integer, float and datetime, a value).
    The object keeps the raw event and its message id, and its project
    and all its trait values are strings. *)
Theorem text_traits_are_accepted (d : dict string pyval) (ety mid : pyval)
    (ts : list pyval) :
  dict_get String.eqb d "event_type" = Some ety -> truthy ety = true ->
  dict_get String.eqb d "message_id" = Some mid -> truthy mid = true ->
  py_get (PDict d) "traits" (PList []) = inr (PList ts) ->
  forallb plain_trait ts = true ->
  exists event,
    Event.__init__ (PDict d) = inr event /\
    obj event = PDict d /\
    id event = mid /\
    (exists p, project event = PStr p) /\
    forall k v,
      dict_get py_eq (traits event) k = Some v -> exists s, v = PStr s.
Proof.
  intros Hety Tety Hmid Tmid Htraits Hplain.
  destruct (parse_traits_loop_plain ts ([], PStr "") Hplain)
    as ([traits project] & Hloop & Hp & Ht).
  { split; [now exists ""%string | discriminate]. }
  exists {| obj := PDict d; id := mid; traits := traits;
            project := project |}.
  split; [|now repeat split].
  unfold Event.__init__, Event._validate, Event.missing,
    Event._parse_traits.
  rewrite Htraits. simpl. rewrite Hety, Hmid, Tety, Tmid. simpl.
  destruct d; [discriminate|]. simpl. now rewrite Hloop.
Qed.

End Properties.

(** * The properties on the small world *)

Import EventAlarmEvaluator.

Lemma delete_record_built : Event.__init__ delete_event = inr delete_record.
Proof. reflexivity. Qed.

Lemma down_record_built : Event.__init__ down_event = inr down_record.
Proof. reflexivity. Qed.

(** The pattern [compute.instance.*] matches the event type
    [compute.instance.update] and not [compute.volume.attach]. *)
Lemma glob_compute_instance :
  glob "compute.instance.update" "compute.instance.*" = true /\
  glob "compute.volume.attach" "compute.instance.*" = false.
Proof. split; reflexivity. Qed.

(** Brackets: a negated range, a bracket as a member, a bracket that is
    never closed, a hyphen at the end. *)
Lemma glob_brackets :
  glob "abc" "a[!x-z]c" = true /\
  glob "ayc" "a[!x-z]c" = false /\
  glob "a]c" "a[]]c" = true /\
  glob "[a" "[a" = true /\
  glob "a-c" "a[a-]c" = true /\
  glob "ab" "?" = false /\
  glob "" "*" = true.
Proof. repeat split. Qed.

(** The deletion event alone: the two alarms of the project fire, the
    first with a reason that names the event and the alarm, and the
    cached copies are in state ['alarm'] afterwards. *)
Lemma delete_event_fires :
  fst (evaluate_events delete_event fresh_evaluator) = inr tt /\
  In (Refresh delete_alarm ALARM
        "Event (message_id=m1) hit the query of alarm (id=a1)"
        (PDict [("type", PStr "event"); ("event", delete_event)]))
     (trace (snd (evaluate_events delete_event fresh_evaluator))) /\
  caches (snd (evaluate_events delete_event fresh_evaluator)) =
    [(PStr "p1",
      {| alarms := [("a1", set_state delete_alarm ALARM);
                    ("a2", set_state tenant_alarm ALARM)];
         updated := 0 |})].
Proof.
  split; [reflexivity|]. split; [|reflexivity].
  vm_compute. tauto.
Qed.

(** The alarm on deletions fires on the deletion event; the alarm whose
    second condition is false returns after comparing two of its three
    conditions. *)
Lemma evaluate_alarm_fires_iff_witness :
  refresh_calls
    (trace (snd (_evaluate_alarm delete_alarm delete_record
                   fresh_evaluator))) = [(delete_alarm, ALARM)] /\
  fst (_evaluate_alarm unmet_alarm delete_record fresh_evaluator) =
    inr tt /\
  compared
    (trace (snd (_evaluate_alarm unmet_alarm delete_record
                   fresh_evaluator))) =
    [instance_is (PStr "i-9"); instance_is (PStr "i-0")].
Proof.
  split.
  - destruct (evaluate_alarm_fires_iff delete_alarm delete_record
                (PStr "compute.instance.delete.end") fresh_evaluator)
      as ([_ Hfire] & _).
    + right. discriminate.
    + reflexivity.
    + apply Hfire. split; [reflexivity|].
      constructor; [reflexivity | constructor].
  - destruct (evaluate_alarm_fires_iff unmet_alarm delete_record
                (PStr "compute.instance.delete.end") fresh_evaluator)
      as (_ & _ & _ & Hunmet).
    + right. discriminate.
    + reflexivity.
    + apply (Hunmet [instance_is (PStr "i-9")] (instance_is (PStr "i-0"))
               [{| field := "traits.instance_id"; op := Some "gt";
                   value := PInt 5 |}]).
      * reflexivity.
      * reflexivity.
      * constructor; [reflexivity | constructor].
      * reflexivity.
Defined.

Lemma fired_alarm_is_skipped_witness :
  _evaluate_alarm fired_alarm delete_record fresh_evaluator =
    (inr tt,
     add_trace fresh_evaluator
       [Logged (LogEvaluatingAlarm "a5" (PStr "m1"));
        Logged (LogSkip "a5")]).
Proof.
  apply (fired_alarm_is_skipped fired_alarm delete_record
           fresh_evaluator); reflexivity.
Defined.

Lemma invalid_event_is_dropped_witness :
  Event.__init__ PNone = inl InvalidEvent /\
  Event.__init__ (PDict []) = inl InvalidEvent /\
  Event.__init__ (PDict [("message_id", PStr "m1")]) = inl InvalidEvent /\
  Event.__init__
    (PDict [("event_type", PStr "compute.instance.delete.end");
            ("message_id", PStr "")]) = inl InvalidEvent /\
  events_loop [PNone; delete_event] fresh_evaluator =
    events_loop [delete_event]
      (add_trace fresh_evaluator
         [Logged (LogEvaluatingEvent PNone); Logged LogAbortingEvent]).
Proof.
  split; [|split; [|split; [|split]]].
  - apply (invalid_event_is_dropped PNone). left. reflexivity.
  - apply (invalid_event_is_dropped (PDict [])). left. reflexivity.
  - apply (invalid_event_is_dropped (PDict [("message_id", PStr "m1")])).
    right. left. eexists. split; [reflexivity | exact I].
  - apply (invalid_event_is_dropped
             (PDict [("event_type", PStr "compute.instance.delete.end");
                     ("message_id", PStr "")])).
    right. right. eexists. split; reflexivity.
  - apply (invalid_event_is_dropped PNone). left. reflexivity.
Defined.

(** One alarm's comparator raises between two alarms that are in
    order: both of these fire. *)
Lemma alarm_failure_is_isolated_witness :
  alarms_loop delete_event delete_record
    [("a1", delete_alarm); ("a3", broken_alarm); ("a2", tenant_alarm)]
    fresh_evaluator =
  alarms_loop delete_event delete_record [("a2", tenant_alarm)]
    (add_trace
       (snd (_evaluate_alarm broken_alarm delete_record
               (snd (_evaluate_alarm delete_alarm delete_record
                       fresh_evaluator))))
       [Logged (LogFailedAlarm "a3" delete_event)]) /\
  fst (_evaluate_alarm broken_alarm delete_record
         (snd (_evaluate_alarm delete_alarm delete_record
                 fresh_evaluator))) = inl (Raised TypeError) /\
  refresh_calls
    (trace (snd (alarms_loop delete_event delete_record
                   [("a1", delete_alarm); ("a3", broken_alarm);
                    ("a2", tenant_alarm)] fresh_evaluator))) =
    [(delete_alarm, ALARM); (tenant_alarm, ALARM)].
Proof.
  split; [|split; reflexivity].
  destruct (alarm_failure_is_isolated delete_event delete_record
              [("a1", delete_alarm); ("a3", broken_alarm);
               ("a2", tenant_alarm)] fresh_evaluator)
    as (_ & _ & Hcaught & _).
  apply (Hcaught [("a1", delete_alarm)] "a3" broken_alarm
           [("a2", tenant_alarm)] (Raised TypeError)); reflexivity.
Defined.



(** An entry of age 60 seconds under a TTL of 60 seconds is served; one
    microsecond later it is discarded and the storage is asked; under a
    TTL of 86400000000000 seconds the lookup raises. *)
Lemma cache_entry_expires_when_older_witness :
  _get_project_alarms (PStr "p1") (cached_evaluator 60 60000000) =
    (inr [("a1", delete_alarm)], cached_evaluator 60 60000000) /\
  fetches (trace (snd (_get_project_alarms (PStr "p1")
                         (cached_evaluator 60 60000001)))) = [PStr "p1"] /\
  fst (_get_project_alarms (PStr "p1")
         (cached_evaluator 86400000000000 5)) = inl (Raised OverflowError).
Proof.
  split; [|split].
  - destruct (cache_entry_expires_when_older (PStr "p1")
                {| alarms := [("a1", delete_alarm)]; updated := 0 |}
                (cached_evaluator 60 60000000) 60000000
                {| clock := 60000000; stored := [] |})
      as [Hin _].
    + simpl. lia.
    + reflexivity.
    + reflexivity.
    + reflexivity.
    + destruct Hin as [_ Hyoung]; [simpl; lia|].
      destruct Hyoung as [E _]; [simpl; lia | exact E].
  - destruct (cache_entry_expires_when_older (PStr "p1")
                {| alarms := [("a1", delete_alarm)]; updated := 0 |}
                (cached_evaluator 60 60000001) 60000001
                {| clock := 60000001; stored := [] |})
      as [Hin _].
    + simpl. lia.
    + reflexivity.
    + reflexivity.
    + reflexivity.
    + destruct Hin as [Hold _]; [simpl; lia|].
      destruct Hold as [_ E]; [simpl; lia | exact E].
  - destruct (cache_entry_expires_when_older (PStr "p1")
                {| alarms := [("a1", delete_alarm)]; updated := 0 |}
                (cached_evaluator 86400000000000 5) 5
                {| clock := 5; stored := [] |})
      as [_ Hbig].
    + simpl. lia.
    + reflexivity.
    + reflexivity.
    + reflexivity.
    + rewrite Hbig; [reflexivity | simpl; lia].
Defined.

(** C8 as stated fails at the boundary: at [now - updated = TTL] it
    has the entry discarded and the storage asked; the code returns the
    cached mapping (the storage, emptied in the meantime, would have
    answered with no alarm) and asks nothing.  It fails as well for a
    TTL that no [timedelta] can hold: an entry 5 microseconds old, which
    it has served, makes the lookup raise [OverflowError]. *)
Lemma entry_of_age_ttl_is_served :
  clock (env (cached_evaluator 60 60000000)) - 0 >=
    event_alarm_cache_ttl (cached_evaluator 60 60000000) * 1000000 /\
  dict_get py_eq (caches (cached_evaluator 60 60000000)) (PStr "p1") =
    Some {| alarms := [("a1", delete_alarm)]; updated := 0 |} /\
  _get_project_alarms (PStr "p1") (cached_evaluator 60 60000000) =
    (inr [("a1", delete_alarm)], cached_evaluator 60 60000000) /\
  fetches (trace (snd (_get_project_alarms (PStr "p1")
                         (cached_evaluator 60 60000000)))) = [] /\
  fst (_get_project_alarms (PStr "p1")
         (cached_evaluator 86400000000000 5)) = inl (Raised OverflowError).
Proof.
  split; [simpl; lia|]. split; [reflexivity|]. split; [reflexivity|].
  split; [reflexivity | vm_compute; reflexivity].
Qed.

Lemma state_writes_are_alarm_witness :
  exists l,
    trace (snd (evaluate_events (PList [delete_event; down_event])
                  fresh_evaluator)) = trace fresh_evaluator ++ l /\
    forall e st, In e l -> written_state e = Some st ->
                 st = ALARM /\ st <> OK /\ st <> UNKNOWN.
Proof.
  exact (proj1 state_writes_are_alarm
           (PList [delete_event; down_event]) fresh_evaluator).
Defined.


(** C2 as stated fails: the storage raises for the project of the first
    event, and [evaluate_events] ends with that exception after the
    fetch; the second event, on which alone two alarms fire, is never
    looked at, and the run does not get to its end. *)
Lemma storage_failure_stops_the_batch :
  fst (get_alarms (PStr "down") (env fresh_evaluator)) =
    inl (OtherException "StorageError") /\
  fst (evaluate_events (PList [down_event; delete_event]) fresh_evaluator)
    = inl (Raised (OtherException "StorageError")) /\
  trace (snd (evaluate_events (PList [down_event; delete_event])
                fresh_evaluator)) =
    [Logged (LogStarting 2); Logged (LogEvaluatingEvent down_event);
     GetAlarms (PStr "down")] /\
  refresh_calls
    (trace (snd (evaluate_events (PList [delete_event]) fresh_evaluator)))
    = [(delete_alarm, ALARM); (tenant_alarm, ALARM)].
Proof. repeat split. Qed.

Lemma storage_failure_aborts_batch_witness :
  fst (evaluate_events (PList [delete_event; down_event; delete_event])
         fresh_evaluator) =
    inl (Raised (OtherException "StorageError")).
Proof.
  destruct (storage_failure_aborts_batch down_event down_record
              [delete_event] (OtherException "StorageError")
              (snd (events_loop [delete_event]
                      (add_trace fresh_evaluator [Logged (LogStarting 3)])))
              (env (snd (events_loop [delete_event]
                           (add_trace fresh_evaluator
                              [Logged (LogStarting 3)]))))
              (env (snd (events_loop [delete_event]
                           (add_trace fresh_evaluator
                              [Logged (LogStarting 3)])))))
    as (s1 & _ & _ & _ & Hbatch).
  - reflexivity.
  - right. left. split; reflexivity.
  - reflexivity.
  - apply (f_equal fst
             (Hbatch [delete_event] fresh_evaluator ltac:(reflexivity))).
Defined.

(** C3 as stated fails: the integer trait ["many"] makes the
    constructor raise [ValueError], not [InvalidEvent], and
    [evaluate_events] ends with that exception at this event; the
    second event, on which alone two alarms fire, is never looked at. *)
Lemma malformed_trait_stops_the_batch :
  _sanitize_trait_value (PStr "many") (PInt 2) = inl ValueError /\
  Event.__init__ bad_trait_event = inl (Raised ValueError) /\
  Event.__init__ bad_trait_event <> inl InvalidEvent /\
  fst (evaluate_events (PList [bad_trait_event; delete_event])
         fresh_evaluator) = inl (Raised ValueError) /\
  trace (snd (evaluate_events (PList [bad_trait_event; delete_event])
                fresh_evaluator)) =
    [Logged (LogStarting 2); Logged (LogEvaluatingEvent bad_trait_event)]
  /\
  refresh_calls
    (trace (snd (evaluate_events (PList [delete_event]) fresh_evaluator)))
    = [(delete_alarm, ALARM); (tenant_alarm, ALARM)].
Proof. repeat split. discriminate. Qed.

Lemma malformed_trait_aborts_batch_witness :
  Event.__init__ bad_trait_event = inl (Raised ValueError) /\
  events_loop [bad_trait_event; delete_event] fresh_evaluator =
    (inl (Raised ValueError),
     add_trace fresh_evaluator [Logged (LogEvaluatingEvent bad_trait_event)]).
Proof.
  destruct (malformed_trait_aborts_batch bad_trait_event
              [("event_type", PStr "compute.instance.delete.end");
               ("message_id", PStr "m3");
               ("traits", PList [trait "tenant_id" 1 (PStr "p1");
                                 trait "vcpus" 2 (PStr "many")])]
              [trait "tenant_id" 1 (PStr "p1")] []
              (trait "vcpus" 2 (PStr "many"))
              (PStr "vcpus") (PInt 2) (PStr "many")
              ([(PStr "tenant_id", PStr "p1")], PStr "p1") ValueError)
    as (Hinit & _ & Hloop); try reflexivity.
  split; [exact Hinit | apply Hloop].
Defined.


(** ** Events and their values *)

Lemma renamed_record_built :
  Event.__init__ renamed_event = inr renamed_record.
Proof. reflexivity. Qed.

(** The event that names its instance twice has the second name's value;
    it has no flavor. *)
Lemma trait_lookup_last_wins_witness :
  Event.get_value renamed_record "traits.flavor" = PNone /\
  exists rv ty,
    py_index (trait "instance_id" 1 (PStr "i-2")) Event.TRAIT_VALUE =
      inr rv /\
    py_index (trait "instance_id" 1 (PStr "i-2")) Event.TRAIT_TYPE =
      inr ty /\
    _sanitize_trait_value rv ty =
      inr (Event.get_value renamed_record "traits.instance_id").
Proof.
  split.
  - destruct (trait_lookup_last_wins renamed_event renamed_record
                (PList renamed_traits) renamed_traits "flavor")
      as [Hnone _]; [reflexivity | reflexivity | reflexivity |].
    apply Hnone. reflexivity.
  - destruct (trait_lookup_last_wins renamed_event renamed_record
                (PList renamed_traits) renamed_traits "instance_id")
      as [_ Hlast]; [reflexivity | reflexivity | reflexivity |].
    apply (Hlast [trait "tenant_id" 1 (PStr "p0");
                  trait "instance_id" 1 (PStr "i-1");
                  trait "project_id" 1 (PStr "p1")]
             (trait "instance_id" 1 (PStr "i-2")) []);
      reflexivity.
Defined.

(** Its project is the one of the later of the two project traits. *)
Lemma project_is_last_tenant_trait_witness :
  exists rv ty,
    py_index (trait "project_id" 1 (PStr "p1")) Event.TRAIT_VALUE =
      inr rv /\
    py_index (trait "project_id" 1 (PStr "p1")) Event.TRAIT_TYPE =
      inr ty /\
    _sanitize_trait_value rv ty = inr (project renamed_record).
Proof.
  destruct (project_is_last_tenant_trait renamed_event renamed_record
              (PList renamed_traits) renamed_traits)
    as [_ Hlast]; [reflexivity | reflexivity | reflexivity |].
  apply (Hlast [trait "tenant_id" 1 (PStr "p0");
                trait "instance_id" 1 (PStr "i-1")]
           (trait "project_id" 1 (PStr "p1"))
           [trait "instance_id" 1 (PStr "i-2")]);
    reflexivity.
Defined.

Lemma event_has_type_and_id_witness :
  exists ety,
    truthy ety = true /\
    py_getitem (obj delete_record) "event_type" = inr ety.
Proof.
  destruct (event_has_type_and_id delete_event delete_record)
    as (d & ety & mid & _ & _ & Ht & _ & _ & _ & _ & Hg);
    [reflexivity|].
  exists ety. split; assumption.
Defined.

(** A string in the place of an event. *)
Lemma non_mapping_event_escapes_witness :
  Event.__init__ (PStr "event") = inl (Raised AttributeError) /\
  forall (rest : list pyval) (s : @evaluator simple_collaborators),
    events_loop (PStr "event" :: rest) s =
      (inl (Raised AttributeError),
       add_trace s [Logged (LogEvaluatingEvent (PStr "event"))]).
Proof.
  apply non_mapping_event_escapes; [reflexivity | intros d; discriminate].
Defined.

Lemma short_trait_item_escapes_witness :
  Event.__init__ short_trait_event = inl (Raised IndexError).
Proof.
  apply (short_trait_item_escapes short_trait_event
           [("event_type", PStr "compute.instance.update");
            ("message_id", PStr "m5");
            ("traits",
             PList [trait "tenant_id" 1 (PStr "p1");
                    PList [PStr "vcpus"; PInt 2]])]
           [trait "tenant_id" 1 (PStr "p1")] []
           [PStr "vcpus"; PInt 2]
           ([(PStr "tenant_id", PStr "p1")], PStr "p1"));
    try reflexivity.
  simpl. lia.
Defined.

(** A path through the event type, which is no dictionary. *)
Lemma get_value_walks_path_witness :
  Event.get_value delete_record "event_type.name" =
    Event.walk (Event.get_value delete_record "event_type")
      (split_on "." "name").
Proof.
  apply (proj1 (proj2 (get_value_walks_path delete_record))
           "event_type" "name"); [reflexivity | discriminate].
Defined.

Lemma text_traits_are_accepted_witness :
  exists event,
    Event.__init__ delete_event = inr event /\ id event = PStr "m1".
Proof.
  destruct (text_traits_are_accepted
              [("event_type", PStr "compute.instance.delete.end");
               ("message_id", PStr "m1");
               ("traits",
                PList [trait "instance_id" 1 (PStr "i-9");
                       trait "tenant_id" 1 (PStr "p1")])]
              (PStr "compute.instance.delete.end") (PStr "m1")
              [trait "instance_id" 1 (PStr "i-9");
               trait "tenant_id" 1 (PStr "p1")])
    as (event & Hinit & _ & Hid & _); try reflexivity.
  exists event. split; [exact Hinit | exact Hid].
Defined.

(** ** The caches *)

Lemma ttl_zero_never_caches_witness :
  caches (snd (evaluate_events delete_event
                 (simple_evaluator 0 0 [delete_alarm]))) =
    caches (simple_evaluator 0 0 [delete_alarm]).
Proof.
  apply (proj1 (proj2 ttl_zero_never_caches)). reflexivity.
Defined.

Lemma firing_marks_the_cached_copy_witness :
  fst (_fire_alarm delete_alarm delete_record (cached_evaluator 60 5)) =
    inr tt /\
  dict_get py_eq
    (caches (snd (_fire_alarm delete_alarm delete_record
                    (cached_evaluator 60 5)))) (PStr "p1") =
    Some {| alarms := [("a1", set_state delete_alarm ALARM)];
            updated := 0 |}.
Proof.
  destruct (firing_marks_the_cached_copy delete_alarm delete_record
              (cached_evaluator 60 5)
              {| alarms := [("a1", delete_alarm)]; updated := 0 |}
              delete_alarm {| clock := 5; stored := [] |})
    as (Hr & _ & Hc & _); try reflexivity.
  split; [exact Hr | exact Hc].
Defined.

Lemma firing_without_cached_copy_witness :
  fst (_fire_alarm delete_alarm delete_record
         (simple_evaluator 60 0 [delete_alarm])) = inr tt.
Proof.
  destruct (firing_without_cached_copy delete_alarm delete_record
              (simple_evaluator 60 0 [delete_alarm]) (inr tt)
              {| clock := 0; stored := [set_state delete_alarm ALARM] |})
    as (_ & Hplain & _); [reflexivity|].
  rewrite Hplain; [reflexivity | reflexivity | right; reflexivity].
Defined.

(** Two alarms of one id in the storage's answer. *)
Lemma by_alarm_id_last_wins_witness :
  dict_get String.eqb
    (by_alarm_id [delete_alarm; set_state delete_alarm ALARM]) "a1" =
    find (fun a => String.eqb (alarm_id a) "a1")
      (rev [delete_alarm; set_state delete_alarm ALARM]).
Proof.
  apply (proj1 (by_alarm_id_last_wins
                  [delete_alarm; set_state delete_alarm ALARM])).
Defined.

Lemma stale_entry_is_dropped_on_failure_witness :
  fst (_get_project_alarms (PStr "down") stale_down_evaluator) =
    inl (Raised (OtherException "StorageError")) /\
  caches (snd (_get_project_alarms (PStr "down") stale_down_evaluator)) =
    [].
Proof.
  destruct (stale_entry_is_dropped_on_failure (PStr "down")
              {| alarms := []; updated := 0 |} stale_down_evaluator
              61000000 {| clock := 61000000; stored := [] |}
              {| clock := 61000000; stored := [] |}
              (OtherException "StorageError"))
    as [Hin _]; try reflexivity.
  destruct Hin as (Hr & Hc & _); [simpl; lia|].
  split; [exact Hr | exact Hc].
Defined.

Lemma returned_alarms_are_the_cached_witness :
  exists entry,
    dict_get py_eq
      (caches (snd (_get_project_alarms (PStr "p1") fresh_evaluator)))
      (PStr "p1") = Some entry /\
    alarms entry = [("a1", delete_alarm); ("a2", tenant_alarm)].
Proof.
  apply (returned_alarms_are_the_cached (PStr "p1") fresh_evaluator);
    try reflexivity.
  discriminate.
Defined.

(** ** Batches *)

(** An empty dictionary and the deletion event. *)
Lemma sound_batch_runs_to_its_end_witness :
  fst (evaluate_events (PList [PDict []; delete_event]) fresh_evaluator) =
    inr tt.
Proof.
  apply (sound_batch_runs_to_its_end [PDict []; delete_event]
           fresh_evaluator).
  - simpl. lia.
  - intros e x [<- | [<- | []]]; discriminate.
  - intros e event [<- | [<- | []]] Hinit w; [discriminate|].
    injection Hinit as <-. simpl. eexists. eexists. reflexivity.
Defined.

(** The deletion event twice in a batch: the alarm fires once. *)
Lemma cached_alarm_fires_once_witness :
  refresh_calls
    (trace (snd (events_loop [delete_event; delete_event]
                   (simple_evaluator 60 0 [delete_alarm])))) =
    [(delete_alarm, ALARM)].
Proof.
  destruct (cached_alarm_fires_once delete_event delete_event
              delete_record delete_record delete_alarm
              (PStr "compute.instance.delete.end")
              (simple_evaluator 60 0 [delete_alarm])
              {| clock := 0; stored := [delete_alarm] |}
              {| clock := 0; stored := [delete_alarm] |}
              {| clock := 0; stored := [set_state delete_alarm ALARM] |}
              {| clock := 0; stored := [set_state delete_alarm ALARM] |}
              0 0)
    as (_ & Hcalls & _).
  1: simpl; lia.
  1-6: reflexivity.
  1: discriminate.
  1-2: reflexivity.
  1: constructor; [reflexivity | constructor].
  1-4: reflexivity.
  1: simpl; lia.
  exact Hcalls.
Defined.
